(** * Middleware matcher of the Expo server: glob compilation and request gating

    A shallow embedding of [shouldRunMiddleware], [matchesPattern],
    [globToRegex] and [escapeRegex] (expo-server, [utils/middleware]),
    together with the fragment of the JavaScript regular-expression
    language those functions produce and consume.

    The functions are modelled as the built module has them: the glob
    compiler works segment by segment and [shouldRunMiddleware] puts the
    configured methods in upper case.  The repository also holds the
    compiler that came before, which rewrote the whole pattern at once;
    it is modelled in [Legacy], with the [shouldRunMiddleware] of its
    time.

    Conventions.
    - A JavaScript string is a [list ascii]; the strings the matcher sees
      (HTTP method tokens, URL pathnames, glob patterns) are ASCII.
    - [new RegExp(src)] is [RegExp_new src : option regex]: [None] stands
      for a thrown [SyntaxError] or for syntax outside the modelled
      fragment (back-references, look-around, class escapes and ranges,
      braces).  The fragment holds every expression [globToRegex] emits
      for a pattern whose wildcard segments hold no metacharacter.
      [in_fragment src] tells the two apart: where it holds, [None] is a
      [SyntaxError] ([RegExp_throws]) and the model is the code; a
      statement about what the code throws, or about every result of
      the code, is made under it.
    - A [RegExp] given as a pattern is an expression of the fragment made
      without flags: [test] keeps no state between two calls.
    - [re.test(s)] is [RegExp_test re s]: an unanchored search, as in
      JavaScript; anchoring comes from the [^] and [$] the code emits.
    - A function that can throw returns [option].
    - [matcher.patterns] is an array, as [MiddlewareMatcher] declares it
      (the code wraps any other value into a one-element array). *)

From Stdlib Require Import List Ascii Bool Arith Lia Permutation.
Import ListNotations.

(* ================================================================== *)
(** ** Strings *)

Definition str : Set := list ascii.

(** String literals for [str]: ["/api"] stands for the list of its
    characters. *)
Inductive str_lit : Set :=
| LNil
| LCons (c : ascii) (l : str_lit).

Fixpoint str_lit_of_bytes (l : list Byte.byte) : str_lit :=
  match l with
  | [] => LNil
  | b :: l' => LCons (ascii_of_byte b) (str_lit_of_bytes l')
  end.

Fixpoint bytes_of_str_lit (l : str_lit) : list Byte.byte :=
  match l with
  | LNil => []
  | LCons c l' => byte_of_ascii c :: bytes_of_str_lit l'
  end.

Declare Scope str_scope.
Delimit Scope str_scope with str.
Bind Scope str_scope with str.

#[warnings="-via-type-remapping,-via-type-mismatch"]
String Notation str str_lit_of_bytes bytes_of_str_lit
  (via str_lit mapping [[nil] => LNil, [cons] => LCons]) : str_scope.

Open Scope str_scope.

(** [a === b] on strings. *)
Fixpoint str_eqb (a b : str) : bool :=
  match a, b with
  | [], [] => true
  | x :: a', y :: b' => Ascii.eqb x y && str_eqb a' b'
  | _, _ => false
  end.

(** [s.startsWith(p)] *)
Fixpoint startsWith (p s : str) : bool :=
  match p, s with
  | [], _ => true
  | x :: p', y :: s' => Ascii.eqb x y && startsWith p' s'
  | _ :: _, [] => false
  end.

(** [s.endsWith(p)] *)
Definition endsWith (p s : str) : bool :=
  startsWith (rev p) (rev s).

(** [s.includes(c)] for a one-character needle. *)
Definition includes (c : ascii) (s : str) : bool :=
  existsb (Ascii.eqb c) s.

(** [s.slice(1)] *)
Definition slice_from1 (s : str) : str := skipn 1 s.

(** [s.slice(0, -k)] *)
Definition slice_to_neg (k : nat) (s : str) : str :=
  firstn (length s - k) s.

(** [s.split(sep)] for a one-character separator: never the empty list. *)
Fixpoint split (sep : ascii) (s : str) : list str :=
  match s with
  | [] => [ [] ]
  | c :: s' =>
      if Ascii.eqb c sep then [] :: split sep s'
      else match split sep s' with
           | seg :: segs => (c :: seg) :: segs
           | [] => [ [c] ]
           end
  end.

(** [a.join('')] *)
Definition join_empty (l : list str) : str := concat l.

(** [a.map((x, index) => f(index, x))] *)
Fixpoint mapi_from {A B : Type} (i : nat) (f : nat -> A -> B) (l : list A) : list B :=
  match l with
  | [] => []
  | x :: l' => f i x :: mapi_from (S i) f l'
  end.

Definition mapi {A B : Type} (f : nat -> A -> B) (l : list A) : list B :=
  mapi_from 0 f l.

(** [s.replace(/c/g, by)] for a one-character pattern. *)
Definition replace_char (c : ascii) (by_ : str) (s : str) : str :=
  flat_map (fun x => if Ascii.eqb x c then by_ else [x]) s.

(** [s.replace(/needle/g, by)] for a literal needle: non-overlapping
    occurrences, leftmost first.  [skip] counts the characters of an
    occurrence that are still to be dropped. *)
Fixpoint replace_all_from (skip : nat) (needle by_ : str) (s : str) : str :=
  match s with
  | [] => []
  | c :: s' =>
      match skip with
      | S k => replace_all_from k needle by_ s'
      | O =>
          if startsWith needle s
          then by_ ++ replace_all_from (length needle - 1) needle by_ s'
          else c :: replace_all_from 0 needle by_ s'
      end
  end.

Definition replace_all (needle by_ : str) (s : str) : str :=
  replace_all_from 0 needle by_ s.

(** [c.toUpperCase()] and [s.toUpperCase()] on ASCII. *)
Definition upper_char (c : ascii) : ascii :=
  let n := nat_of_ascii c in
  if (97 <=? n) && (n <=? 122) then ascii_of_nat (n - 32) else c.

Definition toUpperCase (s : str) : str := map upper_char s.

(** [a.includes(s)] on an array of strings. *)
Definition array_includes (s : str) (l : list str) : bool :=
  existsb (str_eqb s) l.

(* ================================================================== *)
(** ** Regular expressions: syntax trees *)

(** What a single-character atom accepts. *)
Inductive cset : Set :=
| CLit (c : ascii)
| CDot
| CClass (neg : bool) (cs : list ascii).

Definition isLineTerminator (c : ascii) : bool :=
  Ascii.eqb c "010" || Ascii.eqb c "013".

Definition cset_mem (c : ascii) (p : cset) : bool :=
  match p with
  | CLit d => Ascii.eqb c d
  | CDot => negb (isLineTerminator c)
  | CClass neg cs => xorb neg (existsb (Ascii.eqb c) cs)
  end.

Inductive regex : Set :=
| Empty
| Chr (p : cset)
| Bol
| Eol
| Seq (r1 r2 : regex)
| Alt (r1 r2 : regex)
| Star (r : regex).

Definition Plus (r : regex) : regex := Seq r (Star r).
Definition Opt (r : regex) : regex := Alt r Empty.

Definition is_nil (s : str) : bool :=
  match s with [] => true | _ :: _ => false end.

(** [Match r b m post]: at a position of the input that is its start iff
    [b], with [m ++ post] still to read, [r] can consume exactly [m]. *)
Inductive Match : regex -> bool -> str -> str -> Prop :=
| MEmpty b post : Match Empty b [] post
| MChr p b c post : cset_mem c p = true -> Match (Chr p) b [c] post
| MBol post : Match Bol true [] post
| MEol b : Match Eol b [] []
| MSeq r1 r2 b m1 m2 post :
    Match r1 b m1 (m2 ++ post) ->
    Match r2 (b && is_nil m1) m2 post ->
    Match (Seq r1 r2) b (m1 ++ m2) post
| MAltL r1 r2 b m post : Match r1 b m post -> Match (Alt r1 r2) b m post
| MAltR r1 r2 b m post : Match r2 b m post -> Match (Alt r1 r2) b m post
| MStar0 r b post : Match (Star r) b [] post
| MStarS r b m1 m2 post :
    Match r b m1 (m2 ++ post) ->
    Match (Star r) (b && is_nil m1) m2 post ->
    Match (Star r) b (m1 ++ m2) post.

(** The iteration of a starred body [e]: stop here, or run the body once
    more and iterate from where it ends.  An iteration that consumes
    nothing is cut, as in ECMAScript's RepeatMatcher; [n] bounds the number
    of iterations and is the number of characters left. *)
Fixpoint star_loop (e : bool -> str -> (bool -> str -> bool) -> bool)
    (k : bool -> str -> bool) (n : nat) (b : bool) (s : str) {struct n} : bool :=
  k b s ||
  match n with
  | O => false
  | S n' =>
      e b s (fun b' s' => (length s' <? length s) && star_loop e k n' b' s')
  end.

(** The backtracking matcher, in continuation-passing style: [k] is what
    remains to be matched after [r]. *)
Fixpoint exec (r : regex) (b : bool) (s : str) (k : bool -> str -> bool) {struct r} : bool :=
  match r with
  | Empty => k b s
  | Chr p =>
      match s with
      | c :: s' => cset_mem c p && k false s'
      | [] => false
      end
  | Bol => b && k b s
  | Eol => is_nil s && k b s
  | Seq r1 r2 => exec r1 b s (fun b' s' => exec r2 b' s' k)
  | Alt r1 r2 => exec r1 b s k || exec r2 b s k
  | Star r1 => star_loop (exec r1) k (length s) b s
  end.

(** What the matcher is to compute: soundness and completeness of [exec]
    for one expression. *)
Definition exec_sound_at (r : regex) : Prop :=
  forall b s k, exec r b s k = true ->
    exists m post, s = m ++ post /\ Match r b m post /\
                   k (b && is_nil m) post = true.

Definition exec_complete_at (r : regex) : Prop :=
  forall b m post k, Match r b m post -> k (b && is_nil m) post = true ->
    exec r b (m ++ post) k = true.

(** Leftmost search: try every start position. *)
Fixpoint search (r : regex) (b : bool) (s : str) : bool :=
  exec r b s (fun _ _ => true) ||
  match s with
  | [] => false
  | _ :: s' => search r false s'
  end.

(** [re.test(s)] *)
Definition RegExp_test (r : regex) (s : str) : bool := search r true s.

(** A literal character, and a run of them. *)
Definition lit (c : ascii) : regex := Chr (CLit c).
Definition lits (l : str) : list regex := map lit l.

(** [[^/]] *)
Definition not_slash : regex := Chr (CClass true "/").

(* ================================================================== *)
(** ** Regular expressions: [new RegExp(source)]

    A one-pass parser: the state is pushed through the source one
    character at a time.  A frame holds the alternatives of the
    disjunction being read that are complete and the terms of the current
    one, both most recent first; the stack holds the frames of the
    enclosing groups. *)

Record frame : Set := mkFrame {
  f_alts : list regex;
  f_seq : list regex
}.

(** What may follow the last term: nothing to repeat ([QNone]), an atom
    that takes a quantifier ([QAtom]), a quantifier that takes the lazy
    mark ([QQuant]), a lazy quantifier ([QLazy]). *)
Inductive qflag : Set := QNone | QAtom | QQuant | QLazy.

Inductive pmode : Set :=
| MNormal
| MEscape
| MGroup
| MGroupQ
| MClassOpen
| MClass (neg : bool) (cs : list ascii).

Record pstate : Set := mkPstate {
  p_stack : list frame;
  p_cur : frame;
  p_q : qflag;
  p_mode : pmode
}.

Definition seq_of (l : list regex) : regex := fold_right Seq Empty l.

Fixpoint alt_of (l : list regex) : regex :=
  match l with
  | [] => Empty
  | [r] => r
  | r :: l' => Alt r (alt_of l')
  end.

(** The disjunction a frame stands for. *)
Definition close_frame (f : frame) : regex :=
  alt_of (rev (seq_of (rev (f_seq f)) :: f_alts f)).

Definition push_term (r : regex) (q : qflag) (st : pstate) : pstate :=
  mkPstate (p_stack st)
           (mkFrame (f_alts (p_cur st)) (r :: f_seq (p_cur st)))
           q MNormal.

Definition set_mode (m : pmode) (st : pstate) : pstate :=
  mkPstate (p_stack st) (p_cur st) (p_q st) m.

Definition quantify (f : regex -> regex) (st : pstate) : option pstate :=
  match p_q st, f_seq (p_cur st) with
  | QAtom, r :: rest =>
      Some (mkPstate (p_stack st)
                     (mkFrame (f_alts (p_cur st)) (f r :: rest))
                     QQuant MNormal)
  | _, _ => None
  end.

Definition is_alnum (c : ascii) : bool :=
  let n := nat_of_ascii c in
  ((48 <=? n) && (n <=? 57)) || ((65 <=? n) && (n <=? 90)) ||
  ((97 <=? n) && (n <=? 122)).

Definition step_normal (st : pstate) (c : ascii) : option pstate :=
  if Ascii.eqb c "\" then Some (set_mode MEscape st)
  else if Ascii.eqb c "(" then
    Some (mkPstate (p_cur st :: p_stack st) (mkFrame [] []) QNone MGroup)
  else if Ascii.eqb c ")" then
    match p_stack st with
    | [] => None
    | f :: stk =>
        Some (mkPstate stk
                (mkFrame (f_alts f) (close_frame (p_cur st) :: f_seq f))
                QAtom MNormal)
    end
  else if Ascii.eqb c "[" then Some (set_mode MClassOpen st)
  else if Ascii.eqb c "|" then
    Some (mkPstate (p_stack st)
            (mkFrame (seq_of (rev (f_seq (p_cur st))) :: f_alts (p_cur st)) [])
            QNone MNormal)
  else if Ascii.eqb c "*" then quantify Star st
  else if Ascii.eqb c "+" then quantify Plus st
  else if Ascii.eqb c "?" then
    match p_q st with
    | QQuant => Some (mkPstate (p_stack st) (p_cur st) QLazy MNormal)
    | _ => quantify Opt st
    end
  else if Ascii.eqb c "^" then Some (push_term Bol QNone st)
  else if Ascii.eqb c "$" then Some (push_term Eol QNone st)
  else if Ascii.eqb c "." then Some (push_term (Chr CDot) QAtom st)
  else if Ascii.eqb c "{" || Ascii.eqb c "}" || Ascii.eqb c "]" then None
  else Some (push_term (Chr (CLit c)) QAtom st).

Definition step_class (neg : bool) (cs : list ascii) (st : pstate) (c : ascii)
  : option pstate :=
  if Ascii.eqb c "]" then Some (push_term (Chr (CClass neg (rev cs))) QAtom st)
  else if Ascii.eqb c "\" || Ascii.eqb c "-" then None
  else Some (set_mode (MClass neg (c :: cs)) st).

Definition step (st : pstate) (c : ascii) : option pstate :=
  match p_mode st with
  | MNormal => step_normal st c
  | MEscape =>
      if is_alnum c then None else Some (push_term (Chr (CLit c)) QAtom st)
  | MGroup =>
      if Ascii.eqb c "?" then Some (set_mode MGroupQ st)
      else step_normal (set_mode MNormal st) c
  | MGroupQ =>
      if Ascii.eqb c ":" then Some (set_mode MNormal st) else None
  | MClassOpen =>
      if Ascii.eqb c "^" then Some (set_mode (MClass true []) st)
      else step_class false [] st c
  | MClass neg cs => step_class neg cs st c
  end.

Fixpoint steps (st : pstate) (s : str) : option pstate :=
  match s with
  | [] => Some st
  | c :: s' =>
      match step st c with
      | Some st' => steps st' s'
      | None => None
      end
  end.

Definition finish (st : pstate) : option regex :=
  match p_mode st, p_stack st with
  | MNormal, [] => Some (close_frame (p_cur st))
  | _, _ => None
  end.

Definition p_init : pstate := mkPstate [] (mkFrame [] []) QNone MNormal.

(** [new RegExp(source)] *)
Definition RegExp_new (source : str) : option regex :=
  match steps p_init source with
  | Some st => finish st
  | None => None
  end.

(* ================================================================== *)
(** ** The glob compiler ([globToRegex], [escapeRegex]) *)

Definition backslash : ascii := "092".

(** The class [[.+^${}()|[\]\\?]] of [escapeRegex]. *)
Definition is_special (c : ascii) : bool :=
  existsb (Ascii.eqb c) (backslash :: ".+^${}()|[]?").

(** [str.replace(/[.+^${}()|[\]\\?]/g, '\\$&')] *)
Definition escapeRegex (s : str) : str :=
  flat_map (fun c => if is_special c then [backslash; c] else [c]) s.

(** What [transformSegment] makes of a segment without wildcard. *)
Definition literal_segment (segment : str) : str := "/" ++ escapeRegex segment.

(** The callback of [segments.map]: [n] is [segments.length]. *)
Definition transformSegment (n : nat) (index : nat) (segment : str) : str :=
  let isFirst := index =? 0 in
  let isLast := index =? n - 1 in
  if str_eqb segment "**" then
    if isFirst && isLast then ".*"
    else if isFirst then ".+"
    else if isLast then "(?:/.*)?"
    else "(?:/.*)?"
  else if str_eqb segment "*" then "/[^/]+"
  else if endsWith "**" segment then
    "/" ++ escapeRegex (slice_to_neg 2 segment) ++ "[^/]*/?"
  else if includes "*" segment then
    "/" ++ replace_char "*" "[^/]*/?" segment
  else "/" ++ escapeRegex segment.

(** The source text [globToRegex] hands to [new RegExp]. *)
Definition globToRegex_source (pattern : str) : str :=
  if str_eqb pattern "/**" then "^/.*$"
  else
    let segments := split "/" (slice_from1 pattern) in
    let transformedSegments :=
      mapi (transformSegment (length segments)) segments in
    let regexString := join_empty transformedSegments in
    let regexString :=
      if startsWith "/" regexString then regexString else "/" ++ regexString in
    "^" ++ regexString ++ "$".

Definition globToRegex (pattern : str) : option regex :=
  RegExp_new (globToRegex_source pattern).

(* ================================================================== *)
(** ** [matchesPattern] and [shouldRunMiddleware] *)

(** [MiddlewarePattern = string | RegExp]; [POther] is any other value a
    misconfigured matcher may hold. *)
Inductive MiddlewarePattern : Set :=
| PString (s : str)
| PRegExp (r : regex)
| POther.

Definition matchesPattern (pathname : str) (pattern : MiddlewarePattern)
  : option bool :=
  match pattern with
  | PString p =>
      if str_eqb p pathname then Some true
      else if includes "*" p then
        match globToRegex p with
        | Some re => Some (RegExp_test re pathname)
        | None => None
        end
      else Some false
  | PRegExp re => Some (RegExp_test re pathname)
  | POther => Some false
  end.

Record MiddlewareMatcher : Set := mkMatcher {
  patterns : option (list MiddlewarePattern);
  methods : option (list str)
}.

Record MiddlewareSettings : Set := mkSettings {
  matcher : option MiddlewareMatcher
}.

(** A middleware module, without its [default] function. *)
Record MiddlewareModule : Set := mkModule {
  unstable_settings : option MiddlewareSettings
}.

(** A request as the matcher reads it: [pathname] is
    [new URL(request.url).pathname], [method] is [request.method]. *)
Record Request : Set := mkRequest {
  pathname : str;
  method : str
}.

(** [patterns.some(f)] where [f] may throw: left to right, stopping at the
    first [true] or the first exception. *)
Fixpoint array_some {A : Type} (f : A -> option bool) (l : list A) : option bool :=
  match l with
  | [] => Some false
  | x :: l' =>
      match f x with
      | Some true => Some true
      | Some false => array_some f l'
      | None => None
      end
  end.

(** [middleware.unstable_settings?.matcher] *)
Definition matcher_of (middleware : MiddlewareModule) : option MiddlewareMatcher :=
  match unstable_settings middleware with
  | Some settings => matcher settings
  | None => None
  end.

(** The method clause: [true] when the request is rejected by it. *)
Definition methods_reject (request : Request) (m : MiddlewareMatcher) : bool :=
  match methods m with
  | Some ms =>
      let methods := map toUpperCase ms in
      (length methods =? 0) || negb (array_includes (method request) methods)
  | None => false
  end.

Definition shouldRunMiddleware (request : Request) (middleware : MiddlewareModule)
  : option bool :=
  match matcher_of middleware with
  | None => Some true
  | Some m =>
      if methods_reject request m then Some false
      else
        match patterns m with
        | Some ps =>
            if length ps =? 0 then Some false
            else array_some (matchesPattern (pathname request)) ps
        | None => Some true
        end
  end.

(** The part of the URL parser's guarantee on [pathname] that the theorems
    below rely on: it starts with [/] and holds no line terminator. *)
Definition is_pathname (p : str) : bool :=
  startsWith "/" p && forallb (fun c => negb (isLineTerminator c)) p.

(** [matches path p]: the string pattern [p] accepts [path];
    [rejects path p]: it is evaluated without exception and refuses it. *)
Definition matches (path p : str) : Prop :=
  matchesPattern path (PString p) = Some true.

Definition rejects (path p : str) : Prop :=
  matchesPattern path (PString p) = Some false.

(** No [/] in a segment, no line terminator in a text. *)
Definition no_slash (s : str) : bool := negb (includes "/" s).

Definition no_newline (s : str) : bool :=
  forallb (fun c => negb (isLineTerminator c)) s.

Definition dot : regex := Chr CDot.

(* ================================================================== *)
(** ** The earlier glob compiler

    The whole-pattern compiler that the segment compiler above replaced:
    escape, then rewrite [**] and [*] over the whole pattern, then make a
    trailing [/*] optional.  [shouldRunMiddleware] compared the configured
    methods as written. *)

Module Legacy.

Definition DOUBLE_STAR : str := "___DOUBLE_STAR___".

Definition globToRegex_source (pattern : str) : str :=
  let regexPattern :=
    replace_all DOUBLE_STAR ".*"
      (replace_char "*" "[^/]*"
         (replace_all "**" DOUBLE_STAR (escapeRegex pattern))) in
  let regexPattern :=
    if endsWith "/*" pattern
    then slice_to_neg 6 regexPattern ++ "(?:/[^/]*)?"
    else regexPattern in
  "^" ++ regexPattern ++ "$".

Definition globToRegex (pattern : str) : option regex :=
  RegExp_new (globToRegex_source pattern).

Definition matchesPattern (pathname : str) (pattern : MiddlewarePattern)
  : option bool :=
  match pattern with
  | PString p =>
      if str_eqb p pathname then Some true
      else if includes "*" p then
        match globToRegex p with
        | Some re => Some (RegExp_test re pathname)
        | None => None
        end
      else Some false
  | PRegExp re => Some (RegExp_test re pathname)
  | POther => Some false
  end.

Definition methods_reject (request : Request) (m : MiddlewareMatcher) : bool :=
  match methods m with
  | Some ms => (length ms =? 0) || negb (array_includes (method request) ms)
  | None => false
  end.

Definition shouldRunMiddleware (request : Request) (middleware : MiddlewareModule)
  : option bool :=
  match matcher_of middleware with
  | None => Some true
  | Some m =>
      if methods_reject request m then Some false
      else
        match patterns m with
        | Some ps =>
            if length ps =? 0 then Some false
            else array_some (matchesPattern (pathname request)) ps
        | None => Some true
        end
  end.

End Legacy.

(* ================================================================== *)
(** ** The shapes of the accepted paths *)

(** Text that [escapeRegex] leaves as it is. *)
Definition plain (s : str) : bool := forallb (fun c => negb (is_special c)) s.



(** The parser is outside every group, class and escape, in the only
    alternative of the expression. *)
Definition toplevel (st : pstate) : Prop :=
  p_stack st = [] /\ f_alts (p_cur st) = [] /\ p_mode st = MNormal.

(** The last segment of a pattern body. *)
Definition last_segment (b : str) : str := last (split "/" b) [].

(** [/b/seg] for one non-empty segment [seg]. *)
Definition one_more_segment (b path : str) : Prop :=
  exists seg, seg <> [] /\ no_slash seg = true /\ path = "/" ++ b ++ "/" ++ seg.

(** [/b] continued within its last segment, with or without one [/]
    closing it. *)
Definition same_segment (b path : str) : Prop :=
  exists s, no_slash s = true /\
            (path = "/" ++ b ++ s \/ path = "/" ++ b ++ s ++ "/").

(** [/a], some more of the segment, optionally one [/], then [b]. *)
Definition across_one_slash (a b path : str) : Prop :=
  exists s, no_slash s = true /\
            (path = "/" ++ a ++ s ++ b \/ path = "/" ++ a ++ s ++ "/" ++ b).


(** [/b], or [/b/] followed by anything on one line. *)
Definition at_or_beneath (b path : str) : Prop :=
  path = "/" ++ b \/
  exists t, no_newline t = true /\ path = "/" ++ b ++ "/" ++ t.

(* ================================================================== *)
(** ** The repository's test tables

    A row of [it.each]: a URL's pathname and the expected outcome of
    [shouldRunMiddleware] for a [GET] request to it. *)

Definition run_patterns (ps : list str) (path : str) : option bool :=
  shouldRunMiddleware (mkRequest path "GET")
    (mkModule (Some (mkSettings (Some (mkMatcher (Some (map PString ps)) None))))).

Definition row_ok (run : str -> option bool) (row : str * bool) : bool :=
  match run (fst row) with
  | Some b => Bool.eqb b (snd row)
  | None => false
  end.

Definition table_ok (pattern : str) (rows : list (str * bool)) : bool :=
  forallb (row_ok (run_patterns [pattern])) rows.

(* ================================================================== *)
(** ** Further shapes and classes of patterns *)

(** A lower-case letter. *)
Definition is_lower (c : ascii) : bool :=
  let n := nat_of_ascii c in (97 <=? n) && (n <=? 122).

(** A pattern that is never compiled: anything but a string with a [*]. *)
Definition wildcard_free (p : MiddlewarePattern) : bool :=
  match p with
  | PString s => negb (includes "*" s)
  | PRegExp _ => true
  | POther => true
  end.

(** An expression without [^] and [$]. *)
Fixpoint anchor_free (r : regex) : bool :=
  match r with
  | Empty => true
  | Chr _ => true
  | Bol => false
  | Eol => false
  | Seq r1 r2 => anchor_free r1 && anchor_free r2
  | Alt r1 r2 => anchor_free r1 && anchor_free r2
  | Star r1 => anchor_free r1
  end.

(** A path, or a pattern, made of the given segments: a [/] before each. *)
Definition path_of (segs : list str) : str :=
  concat (map (fun seg : str => "/" ++ seg) segs).

(** A segment of a simple glob: text without wildcard, or a bare [*]. *)
Definition simple_segment (seg : str) : bool :=
  no_slash seg && (str_eqb seg "*" || negb (includes "*" seg)).

(** What a segment of a path must be for a simple segment to take it: any
    non-empty segment for [*], the same text otherwise. *)
Definition accepts_segment (seg pseg : str) : Prop :=
  if str_eqb seg "*" then pseg <> [] /\ no_slash pseg = true else pseg = seg.

(** What a simple segment compiles to: the source text, and its terms. *)
Definition simple_source (seg : str) : str :=
  if str_eqb seg "*" then "/[^/]+" else literal_segment seg.

Definition simple_terms (seg : str) : list regex :=
  if str_eqb seg "*" then [lit "/"; Plus not_slash] else lits ("/" ++ seg).

(** [/b/rest], or [/b/], anything on one line, then [/rest]. *)
Definition with_segments_between (b rest path : str) : Prop :=
  path = "/" ++ b ++ "/" ++ rest \/
  exists t, no_newline t = true /\ path = "/" ++ b ++ "/" ++ t ++ "/" ++ rest.

(** [/b/], some of a segment, optionally one [/], any one character on
    the line, then [ext]. *)
Definition any_character_then (b ext path : str) : Prop :=
  exists s c, no_slash s = true /\ isLineTerminator c = false /\
    (path = "/" ++ b ++ "/" ++ s ++ c :: ext \/
     path = "/" ++ b ++ "/" ++ s ++ "/" ++ c :: ext).

(** A segment that [globToRegex] turns into a well-formed piece of
    expression: text without wildcard (it is escaped), or plain text whose
    [*] are all rewritten, which leaves out a segment ending in [**] with
    another [*] before (that [*] is copied as it is). *)
Definition safe_segment (seg : str) : bool :=
  negb (includes "*" seg) ||
  (plain seg && negb (endsWith "**" seg && includes "*" (slice_to_neg 2 seg))).

Definition safe_glob (p : str) : bool :=
  forallb safe_segment (split "/" (slice_from1 p)).

Definition safe_pattern (p : MiddlewarePattern) : bool :=
  match p with
  | PString s => safe_glob s
  | PRegExp _ => true
  | POther => true
  end.

(** A piece of source text that the parser reads from top level back to
    top level. *)
Definition reads (t : str) : Prop :=
  forall st, toplevel st -> exists st', steps st t = Some st' /\ toplevel st'.

(** The earlier compiler: [legacy_matches path p] when the string pattern
    [p] accepts [path], [legacy_rejects path p] when it is evaluated
    without exception and refuses it. *)
Definition legacy_matches (path p : str) : Prop :=
  Legacy.matchesPattern path (PString p) = Some true.

Definition legacy_rejects (path p : str) : Prop :=
  Legacy.matchesPattern path (PString p) = Some false.

(** [/b], or [/b/] and one segment, empty or not. *)
Definition base_or_one_segment (b path : str) : Prop :=
  path = "/" ++ b \/
  exists seg, no_slash seg = true /\ path = "/" ++ b ++ "/" ++ seg.

(** [/b] followed by anything on one line. *)
Definition continues (b path : str) : Prop :=
  exists t, no_newline t = true /\ path = "/" ++ b ++ t.

(** [/a], some more of the segment, then [b]. *)
Definition within_segment (a b path : str) : Prop :=
  exists s, no_slash s = true /\ path = "/" ++ a ++ s ++ b.

(** [/], any number of [c], [b], some more of the segment, with or without
    one [/] closing it. *)
Definition repeated_then (c : ascii) (b path : str) : Prop :=
  exists k s, no_slash s = true /\
    (path = "/" ++ repeat c k ++ b ++ s \/
     path = "/" ++ repeat c k ++ b ++ s ++ "/").

(* ================================================================== *)
(** ** The fragment of the expression syntax

    [step] stops on a character for one of two reasons: the source is
    malformed there, or it uses syntax that JavaScript reads and the
    fragment leaves out.  [unmodelled st c] tells the second case: a
    brace or a closing bracket outside a class, a letter or digit after
    a backslash, a group that opens with [?] followed by anything but [:],
    a range or an escape inside a class. *)
Definition unmodelled_normal (c : ascii) : bool :=
  Ascii.eqb c "{" || Ascii.eqb c "}" || Ascii.eqb c "]".

Definition unmodelled (st : pstate) (c : ascii) : bool :=
  match p_mode st with
  | MNormal => unmodelled_normal c
  | MEscape => is_alnum c
  | MGroup => negb (Ascii.eqb c "?") && unmodelled_normal c
  | MGroupQ => negb (Ascii.eqb c ":")
  | MClassOpen =>
      negb (Ascii.eqb c "^") && (Ascii.eqb c "\" || Ascii.eqb c "-")
  | MClass _ _ => Ascii.eqb c "\" || Ascii.eqb c "-"
  end.

(** The source is read to its end, or up to a malformed place, without
    meeting syntax outside the fragment. *)
Fixpoint in_fragment_from (st : pstate) (s : str) : bool :=
  match s with
  | [] => true
  | c :: s' =>
      if unmodelled st c then false
      else match step st c with
           | Some st' => in_fragment_from st' s'
           | None => true
           end
  end.

Definition in_fragment (source : str) : bool := in_fragment_from p_init source.

(** [new RegExp(source)] throws a [SyntaxError]: the source lies in the
    fragment and the parser refuses it. *)
Definition RegExp_throws (source : str) : bool :=
  in_fragment source &&
  match RegExp_new source with
  | Some _ => false
  | None => true
  end.

(** A pattern on which the model is the code: anything but a glob whose
    compiled source leaves the fragment. *)
Definition modelled_pattern (p : MiddlewarePattern) : bool :=
  match p with
  | PString s => negb (includes "*" s) || in_fragment (globToRegex_source s)
  | PRegExp _ => true
  | POther => true
  end.

(** The matcher of a module holds modelled patterns only. *)
Definition modelled (middleware : MiddlewareModule) : Prop :=
  forall m ps, matcher_of middleware = Some m -> patterns m = Some ps ->
    forallb modelled_pattern ps = true.

(* ================================================================== *)
(** * Properties *)

(** ** Strings *)

Lemma str_eqb_eq (a b : str) : str_eqb a b = true <-> a = b.
Proof.
  revert b; induction a as [|x a IH]; intros [|y b]; simpl; split; intro H;
    try reflexivity; try discriminate.
  - apply andb_true_iff in H as [Hx Ha].
    apply Ascii.eqb_eq in Hx. apply IH in Ha. now subst.
  - injection H as -> ->. rewrite Ascii.eqb_refl. simpl. now apply IH.
Qed.

Lemma str_eqb_refl (a : str) : str_eqb a a = true.
Proof. now apply str_eqb_eq. Qed.

Lemma str_eqb_neq (a b : str) : str_eqb a b = false <-> a <> b.
Proof.
  split.
  - intros H E. apply str_eqb_eq in E. congruence.
  - intro H. destruct (str_eqb a b) eqn:E; [|reflexivity].
    apply str_eqb_eq in E. contradiction.
Qed.

Lemma is_nil_app (a b : str) : is_nil (a ++ b) = is_nil a && is_nil b.
Proof. now destruct a. Qed.

Lemma is_nil_true (a : str) : is_nil a = true <-> a = [].
Proof. destruct a; simpl; split; congruence. Qed.

(** ** The matcher computes the matching relation *)

Lemma star_loop_sound (r : regex) (k : bool -> str -> bool) :
  exec_sound_at r ->
  forall n b s, star_loop (exec r) k n b s = true ->
    exists m post, s = m ++ post /\ Match (Star r) b m post /\
                   k (b && is_nil m) post = true.
Proof.
  intros IHr n. induction n as [|n IHn]; intros b s H; simpl in H.
  - rewrite orb_false_r in H. exists [], s. simpl.
    rewrite andb_true_r. repeat split; auto using MStar0.
  - apply orb_true_iff in H as [H|H].
    + exists [], s. simpl. rewrite andb_true_r. repeat split; auto using MStar0.
    + apply IHr in H as (m1 & post1 & -> & Hm1 & H).
      apply andb_true_iff in H as [_ H].
      apply IHn in H as (m2 & post & -> & Hm2 & H).
      exists (m1 ++ m2), post. rewrite <- app_assoc. split; [reflexivity|].
      split; [now apply MStarS|].
      now rewrite is_nil_app, andb_assoc.
Qed.

Lemma star_loop_complete (r : regex) (k : bool -> str -> bool) :
  exec_complete_at r ->
  forall b m post, Match (Star r) b m post ->
    k (b && is_nil m) post = true ->
    forall n, length (m ++ post) <= n ->
      star_loop (exec r) k n b (m ++ post) = true.
Proof.
  intros IHr b m post HM. remember (Star r) as sr eqn:E.
  induction HM as [| | | | | | | r' b post | r' b m1 m2 post H1 _ H2 IH2];
    try discriminate; injection E as ->; intros Hk n Hn.
  - simpl in *. rewrite andb_true_r in Hk.
    destruct n; simpl; now rewrite Hk.
  - destruct m1 as [|c m1].
    + simpl in *. rewrite andb_true_r in *. now apply IH2.
    + destruct n as [|n]; [simpl in Hn; lia|].
      simpl star_loop. apply orb_true_iff. right.
      rewrite <- app_assoc in *.
      apply (IHr b (c :: m1) (m2 ++ post)); [exact H1|].
      apply andb_true_iff. split.
      * apply Nat.ltb_lt. simpl. rewrite !length_app. lia.
      * apply IH2; [reflexivity| |].
        -- now rewrite is_nil_app, andb_assoc in Hk.
        -- simpl in Hn. rewrite !length_app in *. lia.
Qed.

Lemma exec_sound (r : regex) : exec_sound_at r.
Proof.
  induction r as [|p| | |r1 IH1 r2 IH2|r1 IH1 r2 IH2|r IH]; intros b s k H; simpl in H.
  - exists [], s. simpl. rewrite andb_true_r. auto using MEmpty.
  - destruct s as [|c s]; [discriminate|].
    apply andb_true_iff in H as [Hc Hk].
    exists [c], s. simpl. rewrite andb_false_r. auto using MChr.
  - apply andb_true_iff in H as [-> Hk].
    exists [], s. simpl. auto using MBol.
  - apply andb_true_iff in H as [Hs Hk]. apply is_nil_true in Hs as ->.
    exists [], []. simpl. rewrite andb_true_r. auto using MEol.
  - apply IH1 in H as (m1 & post1 & -> & Hm1 & H).
    apply IH2 in H as (m2 & post & -> & Hm2 & H).
    exists (m1 ++ m2), post. rewrite <- app_assoc. split; [reflexivity|].
    split; [now apply MSeq|]. now rewrite is_nil_app, andb_assoc.
  - apply orb_true_iff in H as [H|H]; [apply IH1 in H|apply IH2 in H];
      destruct H as (m & post & -> & Hm & H); exists m, post;
      auto using MAltL, MAltR.
  - eapply star_loop_sound; eauto.
Qed.

Lemma exec_complete (r : regex) : exec_complete_at r.
Proof.
  induction r as [|p| | |r1 IH1 r2 IH2|r1 IH1 r2 IH2|r IH];
    intros b m post k HM Hk.
  - inversion HM; subst. simpl in *. now rewrite andb_true_r in Hk.
  - inversion HM as [|? ? ? ? Hc| | | | | | |]; subst. simpl in *.
    rewrite andb_false_r in Hk. now rewrite Hc, Hk.
  - inversion HM; subst. simpl in *. exact Hk.
  - inversion HM; subst. simpl in *. now rewrite andb_true_r in Hk.
  - inversion HM; subst. simpl. rewrite <- app_assoc.
    apply IH1; [assumption|]. apply IH2; [assumption|].
    now rewrite is_nil_app, andb_assoc in Hk.
  - simpl. apply orb_true_iff.
    inversion HM; subst; [left; now apply IH1|right; now apply IH2].
  - simpl. eapply star_loop_complete; eauto.
Qed.

Lemma exec_spec (r : regex) (b : bool) (s : str) (k : bool -> str -> bool) :
  exec r b s k = true <->
  exists m post, s = m ++ post /\ Match r b m post /\
                 k (b && is_nil m) post = true.
Proof.
  split.
  - apply exec_sound.
  - intros (m & post & -> & HM & Hk). now apply exec_complete.
Qed.

Lemma search_spec (r : regex) (s : str) : forall b,
  search r b s = true <->
  exists pre m post, s = pre ++ m ++ post /\ Match r (b && is_nil pre) m post.
Proof.
  induction s as [|c s IH]; intro b; simpl; rewrite orb_true_iff, exec_spec.
  - split.
    + intros [(m & post & E & HM & _)|H]; [|discriminate].
      exists [], m, post. simpl. now rewrite andb_true_r.
    + intros (pre & m & post & E & HM). left.
      destruct pre; [|discriminate]. simpl in *. rewrite andb_true_r in HM.
      now exists m, post.
  - rewrite IH. split.
    + intros [(m & post & E & HM & _)|(pre & m & post & E & HM)].
      * exists [], m, post. simpl. now rewrite andb_true_r.
      * exists (c :: pre), m, post. simpl. rewrite andb_false_r.
        split; [now rewrite E|exact HM].
    + intros (pre & m & post & E & HM). destruct pre as [|c' pre].
      * left. simpl in *. rewrite andb_true_r in HM. now exists m, post.
      * right. injection E as -> E. simpl in HM. rewrite andb_false_r in HM.
        now exists pre, m, post.
Qed.

(** [re.test(s)] holds exactly when some substring of [s] is matched by
    [re] in its context. *)
Lemma RegExp_test_spec (r : regex) (s : str) :
  RegExp_test r s = true <->
  exists pre m post, s = pre ++ m ++ post /\ Match r (is_nil pre) m post.
Proof. unfold RegExp_test. now rewrite search_spec. Qed.

(** ** Inversion of the matching relation, connective by connective *)

Lemma Match_Empty_iff b m post : Match Empty b m post <-> m = [].
Proof.
  split; [intro H; now inversion H|intros ->; constructor].
Qed.

Lemma Match_Chr_iff p b m post :
  Match (Chr p) b m post <-> exists c, m = [c] /\ cset_mem c p = true.
Proof.
  split.
  - intro H. inversion H; subst. eauto.
  - intros (c & -> & H). now constructor.
Qed.

Lemma Match_Bol_iff b m post : Match Bol b m post <-> b = true /\ m = [].
Proof.
  split; [intro H; now inversion H|intros [-> ->]; constructor].
Qed.

Lemma Match_Eol_iff b m post : Match Eol b m post <-> m = [] /\ post = [].
Proof.
  split; [intro H; now inversion H|intros [-> ->]; constructor].
Qed.

Lemma Match_Seq_iff r1 r2 b m post :
  Match (Seq r1 r2) b m post <->
  exists m1 m2, m = m1 ++ m2 /\ Match r1 b m1 (m2 ++ post) /\
                Match r2 (b && is_nil m1) m2 post.
Proof.
  split.
  - intro H. inversion H; subst. eauto.
  - intros (m1 & m2 & -> & H1 & H2). now constructor.
Qed.

Lemma Match_Alt_iff r1 r2 b m post :
  Match (Alt r1 r2) b m post <-> Match r1 b m post \/ Match r2 b m post.
Proof.
  split.
  - intro H. inversion H; subst; auto.
  - intros [H|H]; [now apply MAltL|now apply MAltR].
Qed.

Lemma Match_Opt_iff r b m post :
  Match (Opt r) b m post <-> Match r b m post \/ m = [].
Proof. unfold Opt. now rewrite Match_Alt_iff, Match_Empty_iff. Qed.

Lemma Match_Star_Chr_iff p b m post :
  Match (Star (Chr p)) b m post <->
  forallb (fun c => cset_mem c p) m = true.
Proof.
  split.
  - intro H. remember (Star (Chr p)) as r eqn:E.
    induction H as [| | | | | | | |r' b m1 m2 post H1 _ _ IH2];
      try discriminate; [reflexivity|].
    injection E as ->. apply Match_Chr_iff in H1 as (c & -> & Hc).
    simpl. rewrite Hc. now apply IH2.
  - revert b. induction m as [|c m IH]; intros b H; [constructor|].
    simpl in H. apply andb_true_iff in H as [Hc Hm].
    change (c :: m) with ([c] ++ m). apply MStarS; [now constructor|].
    now apply IH.
Qed.

Lemma Match_Plus_Chr_iff p b m post :
  Match (Plus (Chr p)) b m post <->
  m <> [] /\ forallb (fun c => cset_mem c p) m = true.
Proof.
  unfold Plus. rewrite Match_Seq_iff. split.
  - intros (m1 & m2 & -> & H1 & H2).
    apply Match_Chr_iff in H1 as (c & -> & Hc).
    apply Match_Star_Chr_iff in H2. simpl. rewrite Hc, H2.
    split; [discriminate|reflexivity].
  - intros [Hne H]. destruct m as [|c m]; [contradiction|].
    simpl in H. apply andb_true_iff in H as [Hc Hm].
    exists [c], m. split; [reflexivity|]. split.
    + now constructor.
    + now apply Match_Star_Chr_iff.
Qed.

(** ** Sequences of terms *)

Lemma Match_seq_nil b m post : Match (seq_of []) b m post <-> m = [].
Proof. apply Match_Empty_iff. Qed.

Lemma Match_seq_cons t l b m post :
  Match (seq_of (t :: l)) b m post <->
  exists m1 m2, m = m1 ++ m2 /\ Match t b m1 (m2 ++ post) /\
                Match (seq_of l) (b && is_nil m1) m2 post.
Proof. apply Match_Seq_iff. Qed.

Lemma Match_seq_app l1 l2 : forall b m post,
  Match (seq_of (l1 ++ l2)) b m post <->
  exists m1 m2, m = m1 ++ m2 /\ Match (seq_of l1) b m1 (m2 ++ post) /\
                Match (seq_of l2) (b && is_nil m1) m2 post.
Proof.
  induction l1 as [|t l1 IH]; intros b m post.
  - simpl app. split.
    + intro H. exists [], m. simpl. rewrite andb_true_r.
      repeat split; [constructor|exact H].
    + intros (m1 & m2 & -> & H1 & H2). apply Match_seq_nil in H1 as ->.
      simpl in *. now rewrite andb_true_r in H2.
  - simpl app. rewrite Match_seq_cons. split.
    + intros (m1 & m2 & -> & H1 & H2).
      apply IH in H2 as (m3 & m4 & -> & H3 & H4).
      exists (m1 ++ m3), m4. rewrite app_assoc. split; [reflexivity|].
      split.
      * apply Match_seq_cons. exists m1, m3. split; [reflexivity|].
        rewrite <- app_assoc in H1. now split.
      * now rewrite is_nil_app, andb_assoc.
    + intros (m1 & m2 & -> & H1 & H2).
      apply Match_seq_cons in H1 as (m3 & m4 & -> & H3 & H4).
      exists m3, (m4 ++ m2). rewrite <- !app_assoc in *.
      split; [reflexivity|]. split; [exact H3|].
      apply IH. exists m4, m2. split; [reflexivity|]. split; [exact H4|].
      now rewrite is_nil_app, andb_assoc in H2.
Qed.

Lemma Match_seq_lits l rest : forall b m post,
  Match (seq_of (lits l ++ rest)) b m post <->
  exists m', m = l ++ m' /\ Match (seq_of rest) (b && is_nil l) m' post.
Proof.
  induction l as [|c l IH]; intros b m post.
  - simpl. rewrite andb_true_r. split.
    + intro H. now exists m.
    + now intros (m' & -> & H).
  - simpl app. rewrite Match_seq_cons. split.
    + intros (m1 & m2 & -> & H1 & H2).
      apply Match_Chr_iff in H1 as (c' & -> & Hc).
      simpl in Hc. apply Ascii.eqb_eq in Hc as ->.
      apply IH in H2 as (m' & -> & H2).
      exists m'. split; [reflexivity|].
      simpl in *. now rewrite andb_false_r in *.
    + intros (m' & -> & H). exists [c], (l ++ m').
      split; [reflexivity|]. split.
      * constructor. simpl. apply Ascii.eqb_refl.
      * apply IH. exists m'. split; [reflexivity|].
        simpl in *. now rewrite andb_false_r in *.
Qed.

(** A pattern anchored at both ends is tested against the whole input. *)
Lemma RegExp_test_anchored body s :
  RegExp_test (seq_of (Bol :: body ++ [Eol])) s = true <->
  Match (seq_of body) true s [].
Proof.
  rewrite RegExp_test_spec. split.
  - intros (pre & m & post & -> & H).
    apply Match_seq_cons in H as (m1 & m2 & -> & H1 & H2).
    apply Match_Bol_iff in H1 as [Hpre ->].
    apply is_nil_true in Hpre as ->. simpl in *.
    apply Match_seq_app in H2 as (m3 & m4 & -> & H3 & H4).
    apply Match_seq_cons in H4 as (m5 & m6 & -> & H5 & H6).
    apply Match_Eol_iff in H5 as [-> H5].
    apply Match_seq_nil in H6 as ->. simpl in H5. subst post.
    simpl in *. now rewrite !app_nil_r.
  - intro H. exists [], s, []. rewrite app_nil_r. split; [reflexivity|].
    apply Match_seq_cons. exists [], s. split; [reflexivity|]. split.
    + constructor.
    + apply Match_seq_app. exists s, []. rewrite app_nil_r.
      split; [reflexivity|]. split; [exact H|].
      apply Match_seq_cons. exists [], []. repeat split; constructor.
Qed.

Lemma includes_cons c x s : includes c (x :: s) = Ascii.eqb c x || includes c s.
Proof. reflexivity. Qed.

(** ** The parser on escaped literal text *)

Lemma steps_app a : forall st b,
  steps st (a ++ b) =
  match steps st a with
  | Some st' => steps st' b
  | None => None
  end.
Proof.
  induction a as [|c a IH]; intros st b; simpl; [reflexivity|].
  destruct (step st c); [apply IH|reflexivity].
Qed.

Lemma is_special_not_alnum c : is_special c = true -> is_alnum c = false.
Proof.
  unfold is_special. simpl existsb. rewrite !orb_true_iff.
  intros H.
  repeat (destruct H as [H|H];
          [apply Ascii.eqb_eq in H; subst c; reflexivity|]).
  discriminate.
Qed.

Lemma step_normal_plain c st :
  is_special c = false -> Ascii.eqb c "*" = false ->
  step_normal st c = Some (push_term (lit c) QAtom st).
Proof.
  unfold is_special. simpl existsb. rewrite !orb_false_iff.
  intros (H1 & H2 & H3 & H4 & H5 & H6 & H7 & H8 & H9 & H10 & H11 & H12 & H13 & _) Hs.
  unfold backslash in H1. unfold step_normal.
  now rewrite H1, H2, H3, H4, H5, H6, H7, H8, H9, H10, H11, H12, H13, Hs.
Qed.

Lemma step_escaped c st :
  p_mode st = MNormal -> is_special c = true ->
  steps st [backslash; c] = Some (push_term (lit c) QAtom st).
Proof.
  intros Hm Hc. simpl. unfold step at 1. rewrite Hm.
  unfold step_normal. simpl Ascii.eqb. cbv iota.
  unfold step. simpl p_mode. now rewrite (is_special_not_alnum _ Hc).
Qed.

(** Escaped text without [*] is read back as the run of its characters. *)
Lemma steps_escapeRegex l : includes "*" l = false ->
  forall stk alts sq q rest,
    steps (mkPstate stk (mkFrame alts sq) q MNormal) (escapeRegex l ++ rest) =
    steps (mkPstate stk (mkFrame alts (rev (lits l) ++ sq))
                    (if is_nil l then q else QAtom) MNormal) rest.
Proof.
  induction l as [|c l IH]; intros Hl stk alts sq q rest; [reflexivity|].
  rewrite includes_cons in Hl. apply orb_false_iff in Hl as [Hc Hl].
  rewrite Ascii.eqb_sym in Hc.
  change (escapeRegex (c :: l)) with
    ((if is_special c then [backslash; c] else [c]) ++ escapeRegex l).
  rewrite <- app_assoc, steps_app.
  assert (E : (match steps (mkPstate stk (mkFrame alts sq) q MNormal)
                       (if is_special c then [backslash; c] else [c])
               with
               | Some st' => steps st' (escapeRegex l ++ rest)
               | None => None
               end) =
              steps (mkPstate stk (mkFrame alts (lit c :: sq)) QAtom MNormal)
                (escapeRegex l ++ rest)).
  { destruct (is_special c) eqn:Es.
    - now rewrite step_escaped.
    - simpl. unfold step. simpl p_mode. now rewrite step_normal_plain. }
  etransitivity; [exact E|]. rewrite IH by assumption.
  simpl rev. rewrite <- app_assoc. simpl.
  now destruct l.
Qed.

(** ** Splitting and joining *)

Lemma split_not_nil sep s : split sep s <> [].
Proof.
  destruct s as [|c s]; simpl; [discriminate|].
  destruct (Ascii.eqb c sep); [discriminate|].
  destruct (split sep s); discriminate.
Qed.

Lemma split_cons_sep sep s : split sep (sep :: s) = [] :: split sep s.
Proof. simpl. now rewrite Ascii.eqb_refl. Qed.

Lemma split_app_sep sep a c :
  split sep (a ++ sep :: c) = split sep a ++ split sep c.
Proof.
  induction a as [|x a IH].
  - simpl app. now rewrite split_cons_sep.
  - simpl. destruct (Ascii.eqb x sep); [now rewrite IH|].
    rewrite IH. destruct (split sep a) eqn:E; [|reflexivity].
    now apply split_not_nil in E.
Qed.

Lemma split_no_sep sep s : includes sep s = false -> split sep s = [s].
Proof.
  induction s as [|c s IH]; intro H; [reflexivity|].
  simpl in *. apply orb_false_iff in H as [Hc Hs].
  rewrite Ascii.eqb_sym in Hc. now rewrite Hc, IH.
Qed.

(** Appending text without separator extends the last segment. *)
Lemma split_app_no_sep sep a c : includes sep c = false ->
  split sep (a ++ c) =
  removelast (split sep a) ++ [last (split sep a) [] ++ c].
Proof.
  intro Hc. induction a as [|x a IH].
  - simpl. now apply split_no_sep.
  - simpl app. simpl split. destruct (Ascii.eqb x sep).
    + rewrite IH. pose proof (split_not_nil sep a) as Hne.
      destruct (split sep a) as [|seg segs]; [contradiction|]. reflexivity.
    + rewrite IH. pose proof (split_not_nil sep a) as Hne.
      destruct (split sep a) as [|seg segs]; [contradiction|].
      destruct segs; reflexivity.
Qed.

Lemma includes_app c a b : includes c (a ++ b) = includes c a || includes c b.
Proof. apply existsb_app. Qed.

Lemma includes_split c sep s : includes c s = false ->
  Forall (fun seg => includes c seg = false) (split sep s).
Proof.
  induction s as [|x s IH]; intro H; [now repeat constructor|].
  simpl in H. apply orb_false_iff in H as [Hx Hs]. specialize (IH Hs).
  simpl. destruct (Ascii.eqb x sep); [now constructor|].
  pose proof (split_not_nil sep s) as Hne.
  destruct (split sep s) as [|seg segs]; [contradiction|].
  inversion IH; subst. constructor; [|assumption]. simpl. now rewrite Hx.
Qed.

(** Joining the escaped segments, each behind its [/], escapes the text
    behind one [/]. *)
Lemma concat_literal_segments s :
  concat (map literal_segment (split "/" s)) = "/" ++ escapeRegex s.
Proof.
  induction s as [|c s IH]; [reflexivity|].
  cbn [split]. destruct (Ascii.eqb c "/") eqn:Ec.
  - apply Ascii.eqb_eq in Ec as ->. cbn [map concat]. rewrite IH. reflexivity.
  - pose proof (split_not_nil "/" s) as Hne.
    destruct (split "/" s) as [|seg segs]; [contradiction|].
    cbn [map concat] in *. unfold literal_segment in *.
    change (escapeRegex (c :: seg)) with
      ((if is_special c then [backslash; c] else [c]) ++ escapeRegex seg).
    change (escapeRegex (c :: s)) with
      ((if is_special c then [backslash; c] else [c]) ++ escapeRegex s).
    rewrite <- app_assoc in IH. rewrite <- !app_assoc.
    apply app_inv_head in IH. now rewrite IH.
Qed.

Lemma mapi_from_app {A B : Type} (f : nat -> A -> B) l1 : forall i l2,
  mapi_from i f (l1 ++ l2) = mapi_from i f l1 ++ mapi_from (i + length l1) f l2.
Proof.
  induction l1 as [|x l1 IH]; intros i l2; simpl.
  - now rewrite Nat.add_0_r.
  - now rewrite IH, Nat.add_succ_r.
Qed.

Lemma mapi_from_map {A B : Type} (f : nat -> A -> B) (g : A -> B) l :
  Forall (fun x => forall i, f i x = g x) l ->
  forall i, mapi_from i f l = map g l.
Proof.
  induction 1 as [|x l Hx _ IH]; intro i; simpl; [reflexivity|].
  now rewrite Hx, IH.
Qed.

(** ** [transformSegment], case by case *)

Lemma includes_rev c s : includes c (rev s) = includes c s.
Proof.
  induction s as [|x s IH]; [reflexivity|].
  simpl rev. rewrite includes_app, IH, includes_cons. simpl.
  rewrite orb_false_r. apply orb_comm.
Qed.

Lemma startsWith_includes c p s :
  startsWith (c :: p) s = true -> includes c s = true.
Proof.
  destruct s as [|x s]; simpl; [discriminate|].
  intro H. apply andb_true_iff in H as [H _]. now rewrite H.
Qed.

Lemma str_eqb_includes c a b :
  includes c a = false -> includes c b = true -> str_eqb a b = false.
Proof.
  intros Ha Hb. apply str_eqb_neq. intros ->. congruence.
Qed.

Lemma transformSegment_literal n i seg :
  includes "*" seg = false -> transformSegment n i seg = literal_segment seg.
Proof.
  intro H. unfold transformSegment.
  rewrite (str_eqb_includes "*" seg "**" H eq_refl).
  rewrite (str_eqb_includes "*" seg "*" H eq_refl).
  destruct (endsWith "**" seg) eqn:E.
  - unfold endsWith in E. apply startsWith_includes in E.
    rewrite includes_rev in E. congruence.
  - now rewrite H.
Qed.

Lemma transformSegment_star n i : transformSegment n i "*" = "/[^/]+".
Proof. reflexivity. Qed.

Lemma startsWith_app p s : startsWith p (p ++ s) = true.
Proof.
  induction p as [|c p IH]; [reflexivity|].
  simpl. now rewrite Ascii.eqb_refl.
Qed.

Lemma transformSegment_prefix n i pre :
  pre <> [] -> includes "*" pre = false ->
  transformSegment n i (pre ++ "**") = "/" ++ escapeRegex pre ++ "[^/]*/?".
Proof.
  intros Hne H. destruct pre as [|c pre]; [contradiction|].
  rewrite includes_cons in H. apply orb_false_iff in H as [Hc H].
  rewrite Ascii.eqb_sym in Hc.
  unfold transformSegment.
  assert (E1 : str_eqb ((c :: pre) ++ "**") "**" = false)
    by (simpl; now rewrite Hc).
  assert (E2 : str_eqb ((c :: pre) ++ "**") "*" = false)
    by (simpl; now rewrite Hc).
  assert (E3 : endsWith "**" ((c :: pre) ++ "**") = true).
  { unfold endsWith. rewrite rev_app_distr. apply startsWith_app. }
  assert (E4 : slice_to_neg 2 ((c :: pre) ++ "**") = c :: pre).
  { unfold slice_to_neg. rewrite length_app.
    replace (length (c :: pre) + length "**" - 2) with (length (c :: pre) + 0)
      by (simpl; lia).
    rewrite firstn_app_2. simpl firstn. apply app_nil_r. }
  now rewrite E1, E2, E3, E4.
Qed.

(** ** The source text of the compiled pattern, family by family *)

Lemma literal_segments n i b : includes "*" b = false ->
  mapi_from i (transformSegment n) (split "/" b) =
  map literal_segment (split "/" b).
Proof.
  intro H. apply mapi_from_map.
  eapply Forall_impl; [|apply includes_split, H].
  intros seg Hseg j. now apply transformSegment_literal.
Qed.

Lemma not_double_star c b :
  Ascii.eqb c "*" = false -> str_eqb ("/" ++ c :: b) "/**" = false.
Proof. intro H. simpl. now rewrite H. Qed.

(** [/b/*] with [b] free of wildcards. *)
Lemma source_trailing_star b : includes "*" b = false ->
  globToRegex_source ("/" ++ b ++ "/*") = "^/" ++ escapeRegex b ++ "/[^/]+$".
Proof.
  intro H. unfold globToRegex_source.
  assert (E : str_eqb ("/" ++ b ++ "/*") "/**" = false).
  { destruct b as [|c b]; [reflexivity|].
    rewrite includes_cons in H. apply orb_false_iff in H as [Hc _].
    rewrite Ascii.eqb_sym in Hc. now apply not_double_star. }
  rewrite E. change (slice_from1 ("/" ++ b ++ "/*")) with (b ++ "/"%char :: "*").
  rewrite split_app_sep. change (split "/" "*") with ["*"%str].
  unfold mapi. rewrite mapi_from_app, literal_segments by assumption.
  cbn [mapi_from]. rewrite transformSegment_star.
  unfold join_empty. rewrite concat_app, concat_literal_segments.
  cbn [concat]. rewrite app_nil_r, <- app_assoc, startsWith_app.
  cbn [app]. rewrite <- app_assoc. reflexivity.
Qed.

(** [/b**] where the last segment of [b] is not empty: a literal prefix
    glued to [**]. *)
Lemma source_prefix_double_star b :
  includes "*" b = false -> last_segment b <> [] ->
  globToRegex_source ("/" ++ b ++ "**") = "^/" ++ escapeRegex b ++ "[^/]*/?$".
Proof.
  intros H Hlast. unfold globToRegex_source.
  assert (E : str_eqb ("/" ++ b ++ "**") "/**" = false).
  { destruct b as [|c b]; [now contradiction Hlast|].
    rewrite includes_cons in H. apply orb_false_iff in H as [Hc _].
    rewrite Ascii.eqb_sym in Hc. now apply not_double_star. }
  rewrite E. change (slice_from1 ("/" ++ b ++ "**")) with (b ++ "**").
  rewrite split_app_no_sep by reflexivity.
  fold (last_segment b).
  pose proof (includes_split "*" "/" b H) as Hsegs.
  pose proof (concat_literal_segments b) as Hcat.
  rewrite (app_removelast_last [] (split_not_nil "/" b)) in Hsegs, Hcat.
  fold (last_segment b) in Hsegs, Hcat.
  apply Forall_app in Hsegs as [Hinit Hl].
  inversion Hl as [|? ? Hl' _]; subst.
  unfold mapi. rewrite mapi_from_app.
  rewrite (mapi_from_map _ literal_segment).
  2:{ eapply Forall_impl; [|exact Hinit].
      intros seg Hseg j. now apply transformSegment_literal. }
  cbn [mapi_from]. rewrite transformSegment_prefix by assumption.
  unfold join_empty. rewrite concat_app. cbn [concat]. rewrite app_nil_r.
  rewrite map_app, concat_app in Hcat. cbn [map concat] in Hcat.
  rewrite app_nil_r in Hcat. unfold literal_segment at 2 in Hcat.
  set (init := concat (map literal_segment (removelast (split "/" b)))) in *.
  assert (E2 : init ++ "/" ++ escapeRegex (last_segment b) ++ "[^/]*/?" =
               "/" ++ escapeRegex b ++ "[^/]*/?").
  { change ("/" ++ escapeRegex b ++ "[^/]*/?")
      with (("/" ++ escapeRegex b) ++ "[^/]*/?").
    rewrite <- Hcat. now rewrite <- !app_assoc. }
  rewrite E2, startsWith_app. cbn [app]. rewrite <- app_assoc. reflexivity.
Qed.



(** A pattern without wildcard, had it been compiled. *)
Lemma source_literal b : includes "*" b = false ->
  globToRegex_source ("/" ++ b) = "^/" ++ escapeRegex b ++ "$".
Proof.
  intro H. unfold globToRegex_source.
  rewrite (str_eqb_includes "*" ("/" ++ b) "/**") by (try reflexivity; exact H).
  change (slice_from1 ("/" ++ b)) with b.
  unfold mapi. rewrite literal_segments by assumption.
  unfold join_empty. rewrite concat_literal_segments. reflexivity.
Qed.

(** ** Compiled patterns: [^/], escaped literal text, a fixed tail *)

Lemma RegExp_new_anchored b tail terms q :
  includes "*" b = false ->
  (forall sq,
     steps (mkPstate [] (mkFrame [] sq) QAtom MNormal) tail =
     Some (mkPstate [] (mkFrame [] (Eol :: rev terms ++ sq)) q MNormal)) ->
  RegExp_new ("^/" ++ escapeRegex b ++ tail) =
  Some (seq_of (Bol :: (lits ("/" ++ b) ++ terms) ++ [Eol])).
Proof.
  intros Hb Htail. unfold RegExp_new.
  assert (E : steps p_init ("^/" ++ escapeRegex b ++ tail) =
              steps (mkPstate [] (mkFrame [] [lit "/"; Bol]) QAtom MNormal)
                    (escapeRegex b ++ tail)) by reflexivity.
  rewrite E, steps_escapeRegex by assumption.
  replace (if is_nil b then QAtom else QAtom) with QAtom by now destruct b.
  rewrite Htail. unfold finish, close_frame. cbn [p_mode p_stack p_cur f_seq f_alts].
  cbn [rev app alt_of]. do 2 f_equal.
  rewrite !rev_app_distr, !rev_involutive. cbn [rev app].
  unfold lits. cbn [map app]. now rewrite <- !app_assoc.
Qed.

Lemma RegExp_test_anchored_literal b terms s :
  RegExp_test (seq_of (Bol :: (lits ("/" ++ b) ++ terms) ++ [Eol])) s = true <->
  exists m, s = "/" ++ b ++ m /\ Match (seq_of terms) false m [].
Proof.
  rewrite RegExp_test_anchored, Match_seq_lits. cbn [app is_nil andb].
  split; intros (m & -> & H); now exists m.
Qed.

Lemma forallb_no_slash s :
  forallb (fun c => cset_mem c (CClass true "/")) s = no_slash s.
Proof.
  unfold no_slash, includes. induction s as [|c s IH]; [reflexivity|].
  cbn [forallb existsb]. rewrite IH, negb_orb. f_equal.
  unfold cset_mem. cbn [existsb xorb]. rewrite orb_false_r.
  now rewrite Ascii.eqb_sym.
Qed.


(** What [matchesPattern] does with a glob that accepts its own text. *)
Lemma matchesPattern_glob path p r :
  includes "*" p = true -> globToRegex p = Some r -> RegExp_test r p = true ->
  matchesPattern path (PString p) = Some (RegExp_test r path).
Proof.
  intros Hstar Hre Hself. unfold matchesPattern.
  destruct (str_eqb p path) eqn:E.
  - apply str_eqb_eq in E as <-. now rewrite Hself.
  - now rewrite Hstar, Hre.
Qed.

Lemma matches_rejects_total path p (P : Prop) b :
  matchesPattern path (PString p) = Some b -> (b = true <-> P) ->
  (matches path p <-> P) /\ (rejects path p <-> ~ P).
Proof.
  intros E HP. unfold matches, rejects. rewrite E. split; split.
  - intro H. injection H as H. now apply HP.
  - intro H. apply HP in H. now subst.
  - intros H HP'. apply HP in HP'. congruence.
  - intro H. destruct b; [|reflexivity]. exfalso. apply H. now apply HP.
Qed.

(** A pattern that is always evaluated, and accepts exactly the paths of
    [P], refuses exactly the others. *)
Lemma decided path p (P : Prop) :
  (exists v, matchesPattern path (PString p) = Some v /\ (v = true <-> P)) ->
  (matches path p <-> P) /\ (rejects path p <-> ~ P).
Proof.
  intros (v & E & Hv). eapply matches_rejects_total; eassumption.
Qed.

Lemma glob_has_star b t :
  includes "*" t = true -> includes "*" ("/" ++ b ++ t) = true.
Proof.
  intro H. cbn [app]. rewrite includes_cons, includes_app, H.
  now rewrite !orb_true_r.
Qed.

(** ** A trailing bare [/*] *)

Lemma trailing_star_regex b : includes "*" b = false ->
  globToRegex ("/" ++ b ++ "/*") =
  Some (seq_of (Bol :: (lits ("/" ++ b) ++ [lit "/"; Plus not_slash]) ++ [Eol])).
Proof.
  intro H. unfold globToRegex. rewrite source_trailing_star by assumption.
  now apply RegExp_new_anchored with (q := QNone).
Qed.

Lemma trailing_star_test b path :
  RegExp_test
    (seq_of (Bol :: (lits ("/" ++ b) ++ [lit "/"; Plus not_slash]) ++ [Eol]))
    path = true <->
  one_more_segment b path.
Proof.
  rewrite RegExp_test_anchored_literal. unfold one_more_segment. split.
  - intros (m & -> & H).
    apply (Match_seq_lits "/" [Plus not_slash]) in H as (seg & -> & H).
    apply Match_seq_cons in H as (m1 & m2 & -> & H1 & H2).
    apply Match_seq_nil in H2 as ->. rewrite app_nil_r.
    apply Match_Plus_Chr_iff in H1 as [Hne Hall].
    rewrite forallb_no_slash in Hall. now exists m1.
  - intros (seg & Hne & Hns & ->). exists ("/" ++ seg). split; [reflexivity|].
    apply (Match_seq_lits "/" [Plus not_slash]). exists seg.
    split; [reflexivity|]. apply Match_seq_cons. exists seg, [].
    rewrite app_nil_r. split; [reflexivity|]. split; [|constructor].
    apply Match_Plus_Chr_iff. now rewrite forallb_no_slash.
Qed.

Lemma trailing_star_matchesPattern b path : includes "*" b = false ->
  exists v, matchesPattern path (PString ("/" ++ b ++ "/*")) = Some v /\
            (v = true <-> one_more_segment b path).
Proof.
  intro H. eexists. split.
  - apply matchesPattern_glob.
    + now apply glob_has_star.
    + now apply trailing_star_regex.
    + apply trailing_star_test. exists "*". repeat split. discriminate.
  - apply trailing_star_test.
Qed.

(** ** Literal text glued to a trailing [**], or to a trailing [*] *)

Lemma prefix_regex_test b path :
  RegExp_test
    (seq_of (Bol :: (lits ("/" ++ b) ++ [Star not_slash; Opt (lit "/")]) ++ [Eol]))
    path = true <->
  same_segment b path.
Proof.
  rewrite RegExp_test_anchored_literal. unfold same_segment. split.
  - intros (m & -> & H).
    apply Match_seq_cons in H as (s & m2 & -> & H1 & H2).
    apply Match_Star_Chr_iff in H1. rewrite forallb_no_slash in H1.
    apply Match_seq_cons in H2 as (m3 & m4 & -> & H3 & H4).
    apply Match_seq_nil in H4 as ->. rewrite app_nil_r.
    exists s. split; [assumption|].
    apply Match_Opt_iff in H3 as [H3| ->].
    + apply Match_Chr_iff in H3 as (c & -> & Hc).
      apply Ascii.eqb_eq in Hc as ->. now right.
    + left. now rewrite app_nil_r.
  - intros (s & Hs & [-> | ->]).
    + exists s. split; [reflexivity|].
      apply Match_seq_cons. exists s, []. rewrite app_nil_r.
      split; [reflexivity|]. split.
      * apply Match_Star_Chr_iff. now rewrite forallb_no_slash.
      * apply Match_seq_cons. exists [], []. split; [reflexivity|].
        split; [|constructor]. apply Match_Opt_iff. now right.
    + exists (s ++ "/"). split; [reflexivity|].
      apply Match_seq_cons. exists s, "/". split; [reflexivity|]. split.
      * apply Match_Star_Chr_iff. now rewrite forallb_no_slash.
      * apply Match_seq_cons. exists "/", []. split; [reflexivity|].
        split; [|constructor]. apply Match_Opt_iff. left. now constructor.
Qed.

Lemma prefix_double_star_regex b :
  includes "*" b = false -> last_segment b <> [] ->
  globToRegex ("/" ++ b ++ "**") =
  Some (seq_of (Bol :: (lits ("/" ++ b) ++ [Star not_slash; Opt (lit "/")]) ++ [Eol])).
Proof.
  intros H Hl. unfold globToRegex.
  rewrite source_prefix_double_star by assumption.
  now apply RegExp_new_anchored with (q := QNone).
Qed.

Lemma prefix_double_star_matchesPattern b path :
  includes "*" b = false -> last_segment b <> [] ->
  exists v, matchesPattern path (PString ("/" ++ b ++ "**")) = Some v /\
            (v = true <-> same_segment b path).
Proof.
  intros H Hl. eexists. split.
  - apply matchesPattern_glob.
    + now apply glob_has_star.
    + now apply prefix_double_star_regex.
    + apply prefix_regex_test. exists "**". split; [reflexivity|now left].
  - apply prefix_regex_test.
Qed.

Lemma escapeRegex_plain s : plain s = true -> escapeRegex s = s.
Proof.
  induction s as [|c s IH]; intro H; [reflexivity|].
  cbn [plain forallb] in H. apply andb_true_iff in H as [Hc Hs].
  apply negb_true_iff in Hc.
  change (escapeRegex (c :: s)) with
    ((if is_special c then [backslash; c] else [c]) ++ escapeRegex s).
  rewrite Hc, (IH Hs). reflexivity.
Qed.

Lemma replace_char_absent c by_ s :
  includes c s = false -> replace_char c by_ s = s.
Proof.
  induction s as [|x s IH]; intro H; [reflexivity|].
  rewrite includes_cons in H. apply orb_false_iff in H as [Hx Hs].
  rewrite Ascii.eqb_sym in Hx. unfold replace_char in *. cbn [flat_map].
  now rewrite Hx, (IH Hs).
Qed.

Lemma replace_char_app c by_ a b :
  replace_char c by_ (a ++ b) = replace_char c by_ a ++ replace_char c by_ b.
Proof. apply flat_map_app. Qed.

Lemma transformSegment_prefix_star n i pre :
  pre <> [] -> includes "*" pre = false -> plain pre = true ->
  transformSegment n i (pre ++ "*") = "/" ++ escapeRegex pre ++ "[^/]*/?".
Proof.
  intros Hne H Hp. unfold transformSegment.
  destruct pre as [|c pre]; [contradiction|].
  pose proof H as H'. rewrite includes_cons in H'.
  apply orb_false_iff in H' as [Hc _]. rewrite Ascii.eqb_sym in Hc.
  assert (E1 : str_eqb ((c :: pre) ++ "*") "**" = false).
  { destruct pre; simpl; now rewrite Hc. }
  assert (E2 : str_eqb ((c :: pre) ++ "*") "*" = false)
    by (simpl; now rewrite Hc).
  assert (E3 : endsWith "**" ((c :: pre) ++ "*") = false).
  { destruct (exists_last (l := c :: pre)) as (pre' & x & E); [discriminate|].
    rewrite E, <- app_assoc in *.
    assert (Hx : Ascii.eqb "*" x = false).
    { rewrite includes_app, includes_cons in H.
      apply orb_false_iff in H as [_ H]. now apply orb_false_iff in H. }
    unfold endsWith. rewrite !rev_app_distr. cbn [rev app startsWith].
    rewrite Ascii.eqb_refl, Hx. reflexivity. }
  assert (E4 : includes "*" ((c :: pre) ++ "*") = true).
  { rewrite includes_app. cbn. apply orb_true_r. }
  rewrite E1, E2, E3, E4, replace_char_app, replace_char_absent by assumption.
  now rewrite escapeRegex_plain.
Qed.

(** [/b*] where the last segment of [b] is plain text and not empty. *)
Lemma source_prefix_star b :
  includes "*" b = false -> last_segment b <> [] ->
  plain (last_segment b) = true ->
  globToRegex_source ("/" ++ b ++ "*") = "^/" ++ escapeRegex b ++ "[^/]*/?$".
Proof.
  intros H Hlast Hplain. unfold globToRegex_source.
  assert (E : str_eqb ("/" ++ b ++ "*") "/**" = false).
  { destruct b as [|c b]; [now contradiction Hlast|].
    rewrite includes_cons in H. apply orb_false_iff in H as [Hc _].
    rewrite Ascii.eqb_sym in Hc. now apply not_double_star. }
  rewrite E. change (slice_from1 ("/" ++ b ++ "*")) with (b ++ "*").
  rewrite split_app_no_sep by reflexivity.
  fold (last_segment b).
  pose proof (includes_split "*" "/" b H) as Hsegs.
  pose proof (concat_literal_segments b) as Hcat.
  rewrite (app_removelast_last [] (split_not_nil "/" b)) in Hsegs, Hcat.
  fold (last_segment b) in Hsegs, Hcat.
  apply Forall_app in Hsegs as [Hinit Hl].
  inversion Hl as [|? ? Hl' _]; subst.
  unfold mapi. rewrite mapi_from_app.
  rewrite (mapi_from_map _ literal_segment).
  2:{ eapply Forall_impl; [|exact Hinit].
      intros seg Hseg j. now apply transformSegment_literal. }
  cbn [mapi_from]. rewrite transformSegment_prefix_star by assumption.
  unfold join_empty. rewrite concat_app. cbn [concat]. rewrite app_nil_r.
  rewrite map_app, concat_app in Hcat. cbn [map concat] in Hcat.
  rewrite app_nil_r in Hcat. unfold literal_segment at 2 in Hcat.
  set (init := concat (map literal_segment (removelast (split "/" b)))) in *.
  assert (E2 : init ++ "/" ++ escapeRegex (last_segment b) ++ "[^/]*/?" =
               "/" ++ escapeRegex b ++ "[^/]*/?").
  { change ("/" ++ escapeRegex b ++ "[^/]*/?")
      with (("/" ++ escapeRegex b) ++ "[^/]*/?").
    rewrite <- Hcat. now rewrite <- !app_assoc. }
  rewrite E2, startsWith_app. cbn [app]. rewrite <- app_assoc. reflexivity.
Qed.

Lemma prefix_star_regex b :
  includes "*" b = false -> last_segment b <> [] ->
  plain (last_segment b) = true ->
  globToRegex ("/" ++ b ++ "*") =
  Some (seq_of (Bol :: (lits ("/" ++ b) ++ [Star not_slash; Opt (lit "/")]) ++ [Eol])).
Proof.
  intros H Hl Hp. unfold globToRegex.
  rewrite source_prefix_star by assumption.
  now apply RegExp_new_anchored with (q := QNone).
Qed.

Lemma prefix_star_matchesPattern b path :
  includes "*" b = false -> last_segment b <> [] ->
  plain (last_segment b) = true ->
  exists v, matchesPattern path (PString ("/" ++ b ++ "*")) = Some v /\
            (v = true <-> same_segment b path).
Proof.
  intros H Hl Hp. eexists. split.
  - apply matchesPattern_glob.
    + now apply glob_has_star.
    + now apply prefix_star_regex.
    + apply prefix_regex_test. exists "*". split; [reflexivity|now left].
  - apply prefix_regex_test.
Qed.

(** ** A [*] inside a segment *)

Lemma transformSegment_interior_star n i a b :
  includes "*" a = false -> includes "*" b = false -> b <> [] ->
  transformSegment n i (a ++ "*" ++ b) =
  "/" ++ a ++ "[^/]*/?" ++ b.
Proof.
  intros Ha Hb Hne. unfold transformSegment.
  destruct b as [|y b]; [contradiction|].
  pose proof Hb as Hy. rewrite includes_cons in Hy.
  apply orb_false_iff in Hy as [Hy _].
  assert (E1 : str_eqb (a ++ "*" ++ y :: b) "**" = false).
  { destruct a as [|x a].
    - cbn. rewrite Ascii.eqb_sym in Hy. now rewrite Hy.
    - rewrite includes_cons in Ha. apply orb_false_iff in Ha as [Hx _].
      rewrite Ascii.eqb_sym in Hx. cbn. now rewrite Hx. }
  assert (E2 : str_eqb (a ++ "*" ++ y :: b) "*" = false).
  { destruct a as [|x a]; [reflexivity|].
    rewrite includes_cons in Ha. apply orb_false_iff in Ha as [Hx _].
    rewrite Ascii.eqb_sym in Hx. cbn. now rewrite Hx. }
  assert (E3 : endsWith "**" (a ++ "*" ++ y :: b) = false).
  { destruct (exists_last (l := y :: b)) as (b' & z & E); [discriminate|].
    rewrite E in Hb |- *. rewrite includes_app, includes_cons in Hb.
    apply orb_false_iff in Hb as [_ Hz]. apply orb_false_iff in Hz as [Hz _].
    unfold endsWith. rewrite !app_assoc, rev_app_distr.
    cbn [rev app startsWith]. now rewrite Hz. }
  assert (E4 : includes "*" (a ++ "*" ++ y :: b) = true).
  { rewrite includes_app. cbn. apply orb_true_r. }
  rewrite E1, E2, E3, E4, !replace_char_app.
  rewrite (replace_char_absent "*" _ a), (replace_char_absent "*" _ (y :: b))
    by assumption.
  reflexivity.
Qed.

Lemma source_interior_star a b :
  includes "*" a = false -> includes "*" b = false -> b <> [] ->
  includes "/" a = false -> includes "/" b = false ->
  plain a = true -> plain b = true ->
  globToRegex_source ("/" ++ a ++ "*" ++ b) =
  "^/" ++ escapeRegex a ++ "[^/]*/?" ++ escapeRegex b ++ "$".
Proof.
  intros Ha Hb Hne Hsa Hsb Hpa Hpb. unfold globToRegex_source.
  assert (E : str_eqb ("/" ++ a ++ "*" ++ b) "/**" = false).
  { destruct b as [|y b]; [contradiction|].
    rewrite includes_cons in Hb. apply orb_false_iff in Hb as [Hy _].
    rewrite Ascii.eqb_sym in Hy.
    destruct a as [|x a]; cbn.
    - now rewrite Hy.
    - rewrite includes_cons in Ha. apply orb_false_iff in Ha as [Hx _].
      rewrite Ascii.eqb_sym in Hx. now rewrite Hx. }
  rewrite E. change (slice_from1 ("/" ++ a ++ "*" ++ b)) with (a ++ "*" ++ b).
  rewrite split_no_sep
    by (rewrite !includes_app, Hsa, Hsb; reflexivity).
  unfold mapi. cbn [mapi_from length].
  rewrite transformSegment_interior_star by assumption.
  rewrite (escapeRegex_plain a Hpa), (escapeRegex_plain b Hpb).
  unfold join_empty. cbn [concat]. rewrite app_nil_r, startsWith_app.
  cbn [app]. now rewrite <- !app_assoc.
Qed.

Lemma steps_caret_slash rest :
  steps p_init ("^/" ++ rest) =
  steps (mkPstate [] (mkFrame [] [lit "/"; Bol]) QAtom MNormal) rest.
Proof. reflexivity. Qed.

Lemma finish_at_dollar sq q :
  match steps (mkPstate [] (mkFrame [] sq) q MNormal) "$" with
  | Some st => finish st
  | None => None
  end = Some (seq_of (rev sq ++ [Eol])).
Proof. reflexivity. Qed.

Lemma steps_optional_slash sq rest :
  steps (mkPstate [] (mkFrame [] sq) QAtom MNormal) ("[^/]*/?" ++ rest) =
  steps (mkPstate [] (mkFrame [] (Opt (lit "/") :: Star not_slash :: sq))
                  QQuant MNormal) rest.
Proof. reflexivity. Qed.

Lemma interior_star_regex a b :
  includes "*" a = false -> includes "*" b = false -> b <> [] ->
  includes "/" a = false -> includes "/" b = false ->
  plain a = true -> plain b = true ->
  globToRegex ("/" ++ a ++ "*" ++ b) =
  Some (seq_of (Bol :: (lits ("/" ++ a) ++
                        [Star not_slash; Opt (lit "/")] ++ lits b) ++ [Eol])).
Proof.
  intros Ha Hb Hne Hsa Hsb Hpa Hpb. unfold globToRegex.
  rewrite source_interior_star by assumption. unfold RegExp_new.
  rewrite steps_caret_slash, steps_escapeRegex by assumption.
  replace (if is_nil a then QAtom else QAtom) with QAtom by now destruct a.
  rewrite steps_optional_slash, steps_escapeRegex, finish_at_dollar
    by assumption.
  do 2 f_equal.
  repeat first [rewrite rev_app_distr | rewrite rev_involutive
               | progress cbn [rev]].
  rewrite <- !app_assoc. reflexivity.
Qed.

Lemma interior_star_test a b path :
  RegExp_test
    (seq_of (Bol :: (lits ("/" ++ a) ++
                     [Star not_slash; Opt (lit "/")] ++ lits b) ++ [Eol]))
    path = true <->
  across_one_slash a b path.
Proof.
  rewrite RegExp_test_anchored_literal. unfold across_one_slash. split.
  - intros (m & -> & H).
    apply Match_seq_cons in H as (s & m2 & -> & H1 & H2).
    apply Match_Star_Chr_iff in H1. rewrite forallb_no_slash in H1.
    apply Match_seq_cons in H2 as (m3 & m4 & -> & H3 & H4).
    rewrite <- (app_nil_r (lits b)) in H4.
    apply Match_seq_lits in H4 as (m' & -> & H4).
    apply Match_seq_nil in H4 as ->. rewrite app_nil_r.
    exists s. split; [assumption|].
    apply Match_Opt_iff in H3 as [H3| ->].
    + apply Match_Chr_iff in H3 as (c & -> & Hc).
      apply Ascii.eqb_eq in Hc as ->. now right.
    + now left.
  - assert (B : forall f post, Match (seq_of (lits b)) f b post).
    { intros f post. rewrite <- (app_nil_r (lits b)).
      apply Match_seq_lits. exists []. rewrite app_nil_r.
      split; [reflexivity|constructor]. }
    intros (s & Hs & [-> | ->]).
    + exists (s ++ b). split; [reflexivity|].
      apply Match_seq_cons. exists s, b. split; [reflexivity|]. split.
      * apply Match_Star_Chr_iff. now rewrite forallb_no_slash.
      * apply Match_seq_cons. exists [], b. split; [reflexivity|].
        split; [|apply B]. apply Match_Opt_iff. now right.
    + exists (s ++ "/" ++ b). split; [reflexivity|].
      apply Match_seq_cons. exists s, ("/" ++ b). split; [reflexivity|]. split.
      * apply Match_Star_Chr_iff. now rewrite forallb_no_slash.
      * apply Match_seq_cons. exists "/", b. split; [reflexivity|].
        split; [|apply B]. apply Match_Opt_iff. left. now constructor.
Qed.

Lemma interior_star_matchesPattern a b path :
  includes "*" a = false -> includes "*" b = false -> b <> [] ->
  includes "/" a = false -> includes "/" b = false ->
  plain a = true -> plain b = true ->
  exists v, matchesPattern path (PString ("/" ++ a ++ "*" ++ b)) = Some v /\
            (v = true <-> across_one_slash a b path).
Proof.
  intros Ha Hb Hne Hsa Hsb Hpa Hpb. eexists. split.
  - apply matchesPattern_glob.
    + now apply glob_has_star.
    + now apply interior_star_regex.
    + apply interior_star_test. exists "*". split; [reflexivity|now left].
  - apply interior_star_test.
Qed.

(** ** A leading [**] *)




(** ** A trailing [**] segment *)

Lemma source_trailing_double_star b : includes "*" b = false ->
  globToRegex_source ("/" ++ b ++ "/**") = "^/" ++ escapeRegex b ++ "(?:/.*)?$".
Proof.
  intro H. unfold globToRegex_source.
  assert (E : str_eqb ("/" ++ b ++ "/**") "/**" = false).
  { destruct b as [|c b]; [reflexivity|].
    rewrite includes_cons in H. apply orb_false_iff in H as [Hc _].
    rewrite Ascii.eqb_sym in Hc. now apply not_double_star. }
  rewrite E. change (slice_from1 ("/" ++ b ++ "/**")) with (b ++ "/"%char :: "**").
  rewrite split_app_sep. change (split "/" "**") with ["**"%str].
  unfold mapi. rewrite mapi_from_app, literal_segments by assumption.
  pose proof (split_not_nil "/" b) as Hne.
  assert (E2 : transformSegment (length (split "/" b ++ ["**"%str]))
                 (0 + length (split "/" b)) "**" = "(?:/.*)?").
  { rewrite length_app. unfold transformSegment.
    cbn [str_eqb Ascii.eqb Bool.eqb andb length].
    destruct (split "/" b) as [|seg segs]; [contradiction|].
    cbn [length Nat.add Nat.eqb andb].
    match goal with |- (if ?c then _ else _) = _ => now destruct c end. }
  cbn [mapi_from]. rewrite E2.
  unfold join_empty. rewrite concat_app, concat_literal_segments.
  cbn [concat]. rewrite app_nil_r, <- app_assoc, startsWith_app.
  cbn [app]. rewrite <- app_assoc. reflexivity.
Qed.

Lemma trailing_double_star_regex b : includes "*" b = false ->
  globToRegex ("/" ++ b ++ "/**") =
  Some (seq_of (Bol :: (lits ("/" ++ b) ++ [Opt (seq_of [lit "/"; Star dot])]) ++ [Eol])).
Proof.
  intro H. unfold globToRegex. rewrite source_trailing_double_star by assumption.
  now apply RegExp_new_anchored with (q := QNone).
Qed.

Lemma trailing_double_star_test b path :
  RegExp_test
    (seq_of (Bol :: (lits ("/" ++ b) ++ [Opt (seq_of [lit "/"; Star dot])]) ++ [Eol]))
    path = true <->
  at_or_beneath b path.
Proof.
  rewrite RegExp_test_anchored_literal. unfold at_or_beneath. split.
  - intros (m & -> & H).
    apply Match_seq_cons in H as (m1 & m2 & -> & H1 & H2).
    apply Match_seq_nil in H2 as ->. rewrite app_nil_r.
    apply Match_Opt_iff in H1 as [H1| ->].
    + right. apply (Match_seq_lits "/" [Star dot]) in H1 as (t & -> & H1).
      apply Match_seq_cons in H1 as (m3 & m4 & -> & H3 & H4).
      apply Match_seq_nil in H4 as ->. rewrite app_nil_r.
      apply Match_Star_Chr_iff in H3. now exists m3.
    + left. now rewrite app_nil_r.
  - intros [-> | (t & Ht & ->)].
    + exists []. rewrite app_nil_r. split; [reflexivity|].
      apply Match_seq_cons. exists [], []. split; [reflexivity|].
      split; [|constructor]. apply Match_Opt_iff. now right.
    + exists ("/" ++ t). split; [reflexivity|].
      apply Match_seq_cons. exists ("/" ++ t), []. rewrite app_nil_r.
      split; [reflexivity|]. split; [|constructor].
      apply Match_Opt_iff. left.
      apply (Match_seq_lits "/" [Star dot]). exists t. split; [reflexivity|].
      apply Match_seq_cons. exists t, []. rewrite app_nil_r.
      split; [reflexivity|]. split; [|constructor].
      now apply Match_Star_Chr_iff.
Qed.

Lemma trailing_double_star_matchesPattern b path : includes "*" b = false ->
  exists v, matchesPattern path (PString ("/" ++ b ++ "/**")) = Some v /\
            (v = true <-> at_or_beneath b path).
Proof.
  intro H. eexists. split.
  - apply matchesPattern_glob.
    + now apply glob_has_star.
    + now apply trailing_double_star_regex.
    + apply trailing_double_star_test. right. now exists "**".
  - apply trailing_double_star_test.
Qed.

(** ** The pattern [/**] *)

Lemma everything_test path :
  RegExp_test (seq_of (Bol :: (lits "/" ++ [Star dot]) ++ [Eol])) path = true <->
  is_pathname path = true.
Proof.
  rewrite (RegExp_test_anchored_literal [] [Star dot]). split.
  - intros (m & -> & H).
    apply Match_seq_cons in H as (m1 & m2 & -> & H1 & H2).
    apply Match_seq_nil in H2 as ->. rewrite app_nil_r.
    apply Match_Star_Chr_iff in H1. exact H1.
  - intro H. unfold is_pathname in H. apply andb_true_iff in H as [H1 H2].
    destruct path as [|c m]; [discriminate|].
    cbn [startsWith] in H1. rewrite andb_true_r in H1.
    apply Ascii.eqb_eq in H1 as <-.
    exists m. split; [reflexivity|].
    apply Match_seq_cons. exists m, []. rewrite app_nil_r.
    split; [reflexivity|]. split; [|constructor].
    apply Match_Star_Chr_iff. exact H2.
Qed.

Lemma everything_matchesPattern path :
  matchesPattern path (PString "/**") = Some (is_pathname path).
Proof.
  rewrite (matchesPattern_glob path "/**"
             (seq_of (Bol :: (lits "/" ++ [Star dot]) ++ [Eol])));
    try reflexivity.
  f_equal. apply eq_true_iff_eq. apply everything_test.
Qed.

(** ** Patterns without wildcard *)


Lemma literal_regex b : includes "*" b = false ->
  globToRegex ("/" ++ b) =
  Some (seq_of (Bol :: (lits ("/" ++ b) ++ []) ++ [Eol])).
Proof.
  intro H. unfold globToRegex. rewrite source_literal by assumption.
  now apply RegExp_new_anchored with (q := QNone).
Qed.

Lemma literal_test b path :
  RegExp_test (seq_of (Bol :: (lits ("/" ++ b) ++ []) ++ [Eol])) path = true <->
  path = "/" ++ b.
Proof.
  rewrite RegExp_test_anchored_literal. split.
  - intros (m & -> & H). apply Match_seq_nil in H as ->. now rewrite app_nil_r.
  - intros ->. exists []. rewrite app_nil_r. split; [reflexivity|constructor].
Qed.

(** ** The first character of a glob is dropped unread *)

Lemma source_ignores_first_char p :
  globToRegex_source p = globToRegex_source ("/" ++ slice_from1 p).
Proof.
  destruct p as [|c t]; [reflexivity|].
  change (slice_from1 (c :: t)) with t.
  destruct (Ascii.eqb c "/") eqn:Ec.
  - apply Ascii.eqb_eq in Ec as ->. reflexivity.
  - unfold globToRegex_source.
    change (str_eqb (c :: t) "/**") with (Ascii.eqb c "/" && str_eqb t "**").
    rewrite Ec. cbn [andb].
    change (str_eqb ("/" ++ t) "/**") with (str_eqb t "**").
    destruct (str_eqb t "**") eqn:Et.
    + apply str_eqb_eq in Et as ->. reflexivity.
    + reflexivity.
Qed.

(** ** Tame patterns: the parser stays at top level *)

Lemma toplevel_intro sq q : toplevel (mkPstate [] (mkFrame [] sq) q MNormal).
Proof. now repeat split. Qed.

Lemma toplevel_inv st : toplevel st ->
  st = mkPstate [] (mkFrame [] (f_seq (p_cur st))) (p_q st) MNormal.
Proof.
  destruct st as [stk [alts sq] q m]. unfold toplevel. cbn.
  now intros (-> & -> & ->).
Qed.



(** The fixed pieces [transformSegment] emits are read from top level back
    to top level. *)
Lemma steps_fixed_toplevel t st :
  In t [".*"%str; ".+"%str; "(?:/.*)?"%str; "/[^/]+"%str; "[^/]*/?"%str;
        "/"%str; ""%str] ->
  toplevel st -> exists st', steps st t = Some st' /\ toplevel st'.
Proof.
  intros Hin Ht. rewrite (toplevel_inv st Ht).
  cbn [In] in Hin.
  repeat (destruct Hin as [<-|Hin];
          [eexists; split; [reflexivity|apply toplevel_intro]|]).
  contradiction.
Qed.









(* ================================================================== *)
(** * The claims *)

Lemma app_eq_self_nil (a b : str) : a = a ++ b -> b = [].
Proof.
  intro H. rewrite <- (app_nil_r a) in H at 1. now apply app_inv_head in H.
Qed.


(** C1, as amended.  A pattern [/b/*] whose base [/b] holds no wildcard
    accepts exactly the paths [/b/seg] made of the base and one more
    non-empty segment: the trailing [/*] is not optional, so the base
    path itself is refused, and so is everything deeper. *)
Theorem trailing_star_takes_exactly_one_segment :
  forall b path, includes "*" b = false ->
    (matches path ("/" ++ b ++ "/*") <-> one_more_segment b path) /\
    (rejects path ("/" ++ b ++ "/*") <-> ~ one_more_segment b path) /\
    rejects ("/" ++ b) ("/" ++ b ++ "/*") /\
    (forall seg rest,
       rejects ("/" ++ b ++ "/" ++ seg ++ "/" ++ rest) ("/" ++ b ++ "/*")).
Proof.
  intros b path Hb.
  assert (A : forall q,
             (matches q ("/" ++ b ++ "/*") <-> one_more_segment b q) /\
             (rejects q ("/" ++ b ++ "/*") <-> ~ one_more_segment b q)).
  { intro q. apply decided, (trailing_star_matchesPattern b q Hb). }
  split; [apply A|]. split; [apply A|]. split.
  - apply A. intros (seg & Hne & _ & E).
    injection E as E. apply app_eq_self_nil in E. discriminate.
  - intros seg rest. apply A. intros (seg' & Hne & Hns & E).
    injection E as E. apply app_inv_head in E. injection E as E. subst seg'.
    unfold no_slash in Hns. rewrite includes_app, includes_cons in Hns.
    cbn in Hns. rewrite orb_true_r in Hns. discriminate.
Qed.

Lemma trailing_star_takes_exactly_one_segment_witness :
  matches "/api/users" "/api/*" /\
  rejects "/api" "/api/*" /\ rejects "/api/users/1" "/api/*".
Proof.
  pose proof (trailing_star_takes_exactly_one_segment "api" "/api/users" eq_refl)
    as (H1 & _ & H3 & H4).
  split; [|split].
  - apply H1. exists "users". repeat split. discriminate.
  - exact H3.
  - exact (H4 "users" "1").
Defined.

(** C1, as stated, fails: [/api/*] refuses the base path [/api]. *)
Lemma trailing_star_refuses_base_path :
  matchesPattern "/api" (PString "/api/*") = Some false.
Proof. reflexivity. Qed.

(** The earlier compiler did make the trailing [/*] optional, and let the
    extra segment be empty. *)
Lemma legacy_trailing_star_optional :
  Legacy.matchesPattern "/api" (PString "/api/*") = Some true /\
  Legacy.matchesPattern "/api/" (PString "/api/*") = Some true /\
  Legacy.matchesPattern "/api/users" (PString "/api/*") = Some true /\
  Legacy.matchesPattern "/api/users/1" (PString "/api/*") = Some false.
Proof. repeat split. Qed.

(** ** The method clause *)

Lemma array_includes_In s l : array_includes s l = true <-> In s l.
Proof.
  unfold array_includes. rewrite existsb_exists. split.
  - intros (x & Hx & E). apply str_eqb_eq in E. now subst.
  - intro H. exists s. split; [assumption|apply str_eqb_refl].
Qed.

(** The pattern clause alone, as [shouldRunMiddleware] evaluates it. *)
Lemma pattern_clause request m :
  (match patterns m with
   | Some ps =>
       if length ps =? 0 then Some false
       else array_some (matchesPattern (pathname request)) ps
   | None => Some true
   end) =
  match patterns m with
  | Some ps => array_some (matchesPattern (pathname request)) ps
  | None => Some true
  end.
Proof. destruct (patterns m) as [[|p ps]|]; reflexivity. Qed.

(** C2, as amended.  With a [methods] field, every configured method is
    put in upper case and the request's method is compared with the
    result as it stands: the clause is passed exactly when the request's
    method is the upper-case form of a configured method, and then the
    pattern clause decides.  So [{methods:['get']}] lets a [GET] request
    through (it runs when there is no pattern clause). *)
Theorem configured_methods_are_uppercased :
  forall request mw m ms,
    matcher_of mw = Some m -> methods m = Some ms ->
    ((exists x, In x ms /\ method request = toUpperCase x) ->
     shouldRunMiddleware request mw =
     match patterns m with
     | Some ps => array_some (matchesPattern (pathname request)) ps
     | None => Some true
     end) /\
    ((forall x, In x ms -> method request <> toUpperCase x) ->
     shouldRunMiddleware request mw = Some false) /\
    (ms = ["get"%str] -> method request = "GET" -> patterns m = None ->
     shouldRunMiddleware request mw = Some true).
Proof.
  intros request mw m ms Hm Hms.
  assert (A : (exists x, In x ms /\ method request = toUpperCase x) ->
              shouldRunMiddleware request mw =
              match patterns m with
              | Some ps => array_some (matchesPattern (pathname request)) ps
              | None => Some true
              end).
  { intros (x & Hx & E). unfold shouldRunMiddleware, methods_reject.
    rewrite Hm, Hms.
    assert (Hin : array_includes (method request) (map toUpperCase ms) = true).
    { apply array_includes_In. rewrite E. now apply in_map. }
    rewrite Hin, length_map. destruct ms as [|y ms]; [contradiction|].
    cbn [length Nat.eqb orb negb]. apply pattern_clause. }
  split; [exact A|]. split.
  - intro H. unfold shouldRunMiddleware, methods_reject. rewrite Hm, Hms.
    destruct (array_includes (method request) (map toUpperCase ms)) eqn:Hin.
    + apply array_includes_In, in_map_iff in Hin as (x & E & Hx).
      symmetry in E. now apply H in E.
    + cbn [negb]. now rewrite orb_true_r.
  - intros -> Hget Hp. rewrite A, Hp; [reflexivity|].
    exists "get". split; [now left|exact Hget].
Qed.

Lemma configured_methods_are_uppercased_witness :
  shouldRunMiddleware (mkRequest "/api" "GET")
    (mkModule (Some (mkSettings (Some (mkMatcher None (Some ["get"%str])))))) =
  Some true.
Proof.
  apply (configured_methods_are_uppercased
           (mkRequest "/api" "GET")
           (mkModule (Some (mkSettings (Some (mkMatcher None (Some ["get"%str]))))))
           (mkMatcher None (Some ["get"%str])) ["get"%str]
           eq_refl eq_refl); reflexivity.
Defined.

(** C2, as stated, fails: the request's method is not put in upper case,
    so a [patch] request is refused by [{methods:['PATCH']}]. *)
Lemma request_method_is_compared_verbatim :
  shouldRunMiddleware (mkRequest "/api" "patch")
    (mkModule (Some (mkSettings (Some (mkMatcher None (Some ["PATCH"%str])))))) =
  Some false.
Proof. reflexivity. Qed.

(** The earlier [shouldRunMiddleware] compared the configured methods as
    written. *)
Lemma legacy_methods_are_compared_verbatim :
  Legacy.shouldRunMiddleware (mkRequest "/api" "GET")
    (mkModule (Some (mkSettings (Some (mkMatcher None (Some ["get"%str])))))) =
  Some false.
Proof. reflexivity. Qed.

(** C3.  [shouldRunMiddleware] answers [true] when there is no matcher at
    all (no settings, or settings without matcher) and when the matcher
    has neither field; it answers [false] when [methods] is the empty
    sequence, whatever the patterns, and when [patterns] is the empty
    sequence, whatever the methods. *)
Theorem absent_runs_empty_never_runs :
  forall request,
    shouldRunMiddleware request (mkModule None) = Some true /\
    shouldRunMiddleware request (mkModule (Some (mkSettings None))) = Some true /\
    shouldRunMiddleware request
      (mkModule (Some (mkSettings (Some (mkMatcher None None))))) = Some true /\
    (forall ps,
       shouldRunMiddleware request
         (mkModule (Some (mkSettings (Some (mkMatcher ps (Some [])))))) =
       Some false) /\
    (forall ms,
       shouldRunMiddleware request
         (mkModule (Some (mkSettings (Some (mkMatcher (Some []) ms))))) =
       Some false).
Proof.
  intro request. repeat split.
  intro ms. unfold shouldRunMiddleware. cbn [matcher_of unstable_settings matcher].
  destruct (methods_reject request (mkMatcher (Some []) ms)); reflexivity.
Qed.

(** C4.  The pattern [/**] accepts every pathname: every text that starts
    with [/] and holds no line terminator, which is what the URL parser
    hands over; the earlier compiler agreed. *)
Theorem double_star_accepts_every_path :
  forall path, is_pathname path = true ->
    matches path "/**" /\
    Legacy.matchesPattern path (PString "/**") = Some true.
Proof.
  intros path H. split.
  - unfold matches. now rewrite everything_matchesPattern, H.
  - unfold Legacy.matchesPattern. destruct (str_eqb "/**" path); [reflexivity|].
    cbn [includes existsb Ascii.eqb Bool.eqb orb].
    change (Legacy.globToRegex "/**")
      with (Some (seq_of (Bol :: (lits "/" ++ [Star dot]) ++ [Eol]))).
    cbv iota. f_equal. now apply everything_test.
Qed.

Lemma double_star_accepts_every_path_witness :
  matches "/" "/**" /\ matches "/api/x/y" "/**".
Proof.
  split.
  - apply (double_star_accepts_every_path "/"). reflexivity.
  - apply (double_star_accepts_every_path "/api/x/y"). reflexivity.
Defined.

(** Nothing but a pathname is accepted by [/**]. *)
Lemma double_star_accepts_pathnames_only path :
  matches path "/**" <-> is_pathname path = true.
Proof.
  unfold matches. rewrite everything_matchesPattern.
  split; [now intros [= ->]|now intros ->].
Qed.






(** C7: the code departs from the claim.  Every [*] of a segment that holds
    other text is compiled to [[^/]*/?], whose optional [/] lets a segment
    [a*b] reach across a segment boundary: [/a*b] accepts [/a/b] and
    [/ax/b].  In general [/a*b], for plain texts [a] and [b] of one
    segment, accepts [/a], more of that segment, optionally one [/], and
    [b].  The earlier compiler, which wrote [[^/]*], refused [/a/b]. *)
Theorem interior_star_crosses_a_slash :
  (globToRegex_source "/a*b" = "^/a[^/]*/?b$" /\
   matches "/a/b" "/a*b" /\ matches "/ax/b" "/a*b" /\
   Legacy.globToRegex_source "/a*b" = "^/a[^/]*b$" /\
   Legacy.matchesPattern "/a/b" (PString "/a*b") = Some false) /\
  (forall a b path,
     includes "*" a = false -> includes "*" b = false -> b <> [] ->
     includes "/" a = false -> includes "/" b = false ->
     plain a = true -> plain b = true ->
     (matches path ("/" ++ a ++ "*" ++ b) <-> across_one_slash a b path) /\
     (forall s, no_slash s = true ->
        matches ("/" ++ a ++ s ++ "/" ++ b) ("/" ++ a ++ "*" ++ b))).
Proof.
  split; [repeat split|].
  intros a b path Ha Hb Hne Hsa Hsb Hpa Hpb.
  assert (A : forall q,
             matches q ("/" ++ a ++ "*" ++ b) <-> across_one_slash a b q).
  { intro q.
    apply decided.
    now apply interior_star_matchesPattern. }
  split; [apply A|].
  intros s Hs. apply A. exists s. split; [assumption|now right].
Qed.










(** A [**] right before the closing [/] is a wildcard at the end of the
    pattern: [/**/] accepts its own text with one more [/]. *)
Lemma empty_last_segment_accepts_extra_slash : matches "/**//" "/**/".
Proof. reflexivity. Qed.





(** C10, as amended.  [globToRegex] drops the first character of the
    pattern unread and anchors what it compiles under [/]: a pattern and
    the pattern with [/] in place of its first character are compiled to
    the same expression.  So for a glob [p] that does not start with [/]
    and a path that is neither [p] nor that rewritten pattern,
    [matchesPattern] gives the same answer for both. *)
Theorem glob_first_character_is_dropped :
  forall path p, includes "*" p = true -> startsWith "/" p = false ->
    path <> p -> path <> "/" ++ slice_from1 p ->
    globToRegex_source p = globToRegex_source ("/" ++ slice_from1 p) /\
    matchesPattern path (PString p) =
    matchesPattern path (PString ("/" ++ slice_from1 p)).
Proof.
  intros path p Hstar Hslash Hp Hp'.
  split; [apply source_ignores_first_char|].
  unfold matchesPattern.
  assert (E1 : str_eqb p path = false) by (apply str_eqb_neq; congruence).
  assert (E2 : str_eqb ("/" ++ slice_from1 p) path = false)
    by (apply str_eqb_neq; congruence).
  rewrite E1, E2, Hstar. unfold globToRegex.
  rewrite (source_ignores_first_char p).
  destruct (includes "*" ("/" ++ slice_from1 p)) eqn:Et; [reflexivity|].
  change (includes "*" ("/" ++ slice_from1 p))
    with (includes "*" (slice_from1 p)) in Et.
  fold (globToRegex ("/" ++ slice_from1 p)).
  rewrite literal_regex by assumption. f_equal.
  destruct (RegExp_test _ path) eqn:T; [|reflexivity].
  apply literal_test in T. contradiction.
Qed.

Lemma glob_first_character_is_dropped_witness :
  globToRegex_source "api/*" = globToRegex_source "/pi/*" /\
  matchesPattern "/pi/x" (PString "api/*") =
  matchesPattern "/pi/x" (PString "/pi/*").
Proof.
  apply (glob_first_character_is_dropped "/pi/x" "api/*");
    [reflexivity|reflexivity|discriminate|discriminate].
Defined.

(** C10, as stated, fails where the path is the rewritten pattern: the
    rewritten pattern accepts it as its own text, the original compiles
    to an expression that refuses it. *)
Lemma glob_first_character_exact_match_differs :
  matchesPattern "/a+b*" (PString "xa+b*") = Some false /\
  matchesPattern "/a+b*" (PString ("/" ++ slice_from1 "xa+b*")) = Some true.
Proof. split; reflexivity. Qed.

(* ================================================================== *)
(** * Further properties *)

(** ** [shouldRunMiddleware]: when it runs, when it throws *)

Lemma array_some_true {A : Type} (f : A -> option bool) (l : list A) :
  array_some f l = Some true <->
  exists l1 x l2, l = l1 ++ x :: l2 /\
                  Forall (fun y => f y = Some false) l1 /\ f x = Some true.
Proof.
  induction l as [|a l IH]; simpl.
  - split; [discriminate|]. intros (l1 & x & l2 & E & _). now destruct l1.
  - destruct (f a) as [[|]|] eqn:Ea.
    + split; [|reflexivity]. intros _. exists [], a, l. now repeat split.
    + rewrite IH. split.
      * intros (l1 & x & l2 & -> & Hl1 & Hx).
        exists (a :: l1), x, l2. repeat split; [constructor|]; assumption.
      * intros (l1 & x & l2 & E & Hl1 & Hx). destruct l1 as [|b l1].
        -- injection E as -> _. congruence.
        -- injection E as -> ->. inversion Hl1; subst.
           now exists l1, x, l2.
    + split; [discriminate|]. intros (l1 & x & l2 & E & Hl1 & Hx).
      destruct l1 as [|b l1].
      * injection E as -> _. congruence.
      * injection E as -> _. inversion Hl1; subst. congruence.
Qed.

Lemma array_some_none {A : Type} (f : A -> option bool) (l : list A) :
  array_some f l = None <->
  exists l1 x l2, l = l1 ++ x :: l2 /\
                  Forall (fun y => f y = Some false) l1 /\ f x = None.
Proof.
  induction l as [|a l IH]; simpl.
  - split; [discriminate|]. intros (l1 & x & l2 & E & _). now destruct l1.
  - destruct (f a) as [[|]|] eqn:Ea.
    + split; [discriminate|]. intros (l1 & x & l2 & E & Hl1 & Hx).
      destruct l1 as [|b l1].
      * injection E as -> _. congruence.
      * injection E as -> _. inversion Hl1; subst. congruence.
    + rewrite IH. split.
      * intros (l1 & x & l2 & -> & Hl1 & Hx).
        exists (a :: l1), x, l2. repeat split; [constructor|]; assumption.
      * intros (l1 & x & l2 & E & Hl1 & Hx). destruct l1 as [|b l1].
        -- injection E as -> _. congruence.
        -- injection E as -> ->. inversion Hl1; subst.
           now exists l1, x, l2.
    + split; [|reflexivity]. intros _. exists [], a, l. now repeat split.
Qed.

Lemma methods_reject_false request m :
  methods_reject request m = false <->
  forall ms, methods m = Some ms ->
    exists x, In x ms /\ method request = toUpperCase x.
Proof.
  unfold methods_reject. destruct (methods m) as [ms|].
  - rewrite orb_false_iff, negb_false_iff, array_includes_In, in_map_iff.
    split.
    + intros [_ (x & E & Hx)] ms' [= <-]. now exists x.
    + intros H. destruct (H ms eq_refl) as (x & Hx & E). split.
      * destruct ms; [destruct Hx | reflexivity].
      * now exists x.
  - split; [discriminate | reflexivity].
Qed.

Lemma matchesPattern_none path p :
  matchesPattern path p = None <->
  exists s, p = PString s /\ s <> path /\ includes "*" s = true /\
            globToRegex s = None.
Proof.
  destruct p as [s|r|]; simpl.
  - destruct (str_eqb s path) eqn:E.
    + split; [discriminate|]. intros (s' & [= <-] & Hne & _).
      apply str_eqb_eq in E. contradiction.
    + apply str_eqb_neq in E. destruct (includes "*" s) eqn:Hs.
      * destruct (globToRegex s) eqn:Hg.
        -- split; [discriminate|]. intros (s' & [= <-] & _ & _ & H). congruence.
        -- split; [|reflexivity]. intros _. now exists s.
      * split; [discriminate|]. intros (s' & [= <-] & _ & H & _). congruence.
  - split; [discriminate|]. intros (s & H & _). discriminate.
  - split; [discriminate|]. intros (s & H & _). discriminate.
Qed.

(** What the parser refuses is malformed, or outside the fragment. *)
Lemma unmodelled_normal_stops st c :
  unmodelled_normal c = true -> step_normal st c = None.
Proof.
  unfold unmodelled_normal. intro H.
  apply orb_true_iff in H as [H|H]; [apply orb_true_iff in H as [H|H]|];
    apply Ascii.eqb_eq in H; subst c; reflexivity.
Qed.

Lemma unmodelled_stops st c : unmodelled st c = true -> step st c = None.
Proof.
  unfold unmodelled, step. destruct (p_mode st).
  - apply unmodelled_normal_stops.
  - now intros ->.
  - intro H. apply andb_true_iff in H as [H1 H2].
    apply negb_true_iff in H1. rewrite H1. now apply unmodelled_normal_stops.
  - intro H. apply negb_true_iff in H. now rewrite H.
  - intro H. apply andb_true_iff in H as [H1 H2].
    apply negb_true_iff in H1. rewrite H1. unfold step_class.
    apply orb_true_iff in H2 as [H2|H2]; apply Ascii.eqb_eq in H2; subst c;
      reflexivity.
  - intro H. unfold step_class.
    apply orb_true_iff in H as [H|H]; apply Ascii.eqb_eq in H; subst c;
      reflexivity.
Qed.

(** What the parser reads to its end lies in the fragment. *)
Lemma steps_in_fragment s : forall st st',
  steps st s = Some st' -> in_fragment_from st s = true.
Proof.
  induction s as [|c s IH]; intros st st' H; [reflexivity|].
  cbn [steps in_fragment_from] in *.
  destruct (unmodelled st c) eqn:E.
  - apply unmodelled_stops in E. now rewrite E in H.
  - destruct (step st c) as [st1|]; [|reflexivity]. now apply (IH st1 st').
Qed.

Lemma RegExp_new_in_fragment source r :
  RegExp_new source = Some r -> in_fragment source = true.
Proof.
  unfold RegExp_new, in_fragment. intro H.
  destruct (steps p_init source) as [st|] eqn:E; [|discriminate].
  now apply (steps_in_fragment source p_init st).
Qed.

Lemma RegExp_throws_iff source : in_fragment source = true ->
  (RegExp_throws source = true <-> RegExp_new source = None).
Proof.
  intro H. unfold RegExp_throws. rewrite H. cbn [andb].
  destruct (RegExp_new source); split; congruence.
Qed.

Lemma modelled_glob_throws s ps :
  forallb modelled_pattern ps = true -> In (PString s) ps ->
  includes "*" s = true ->
  (RegExp_throws (globToRegex_source s) = true <-> globToRegex s = None).
Proof.
  intros H Hin Hs. rewrite forallb_forall in H. specialize (H _ Hin).
  cbn [modelled_pattern] in H. rewrite Hs in H. cbn [negb orb] in H.
  now apply RegExp_throws_iff.
Qed.

(** X1.  For a matcher whose globs compile to sources of the fragment
    (there the model is the code), [shouldRunMiddleware] answers [true]
    exactly when there is no matcher, or when the method clause, if any,
    holds the request's method as the upper-case form of a configured one
    and the pattern clause, if any, holds a pattern that accepts the path,
    every pattern before it having refused it. *)
Theorem middleware_runs_iff :
  forall request mw,
    modelled mw ->
    (shouldRunMiddleware request mw = Some true <->
     matcher_of mw = None \/
     exists m, matcher_of mw = Some m /\
       (forall ms, methods m = Some ms ->
          exists x, In x ms /\ method request = toUpperCase x) /\
       (forall ps, patterns m = Some ps ->
          exists l1 p l2, ps = l1 ++ p :: l2 /\
            Forall (fun q => matchesPattern (pathname request) q = Some false) l1 /\
            matchesPattern (pathname request) p = Some true)).
Proof.
  intros request mw _. unfold shouldRunMiddleware.
  destruct (matcher_of mw) as [m|]; [|split; [now left | reflexivity]].
  rewrite pattern_clause.
  split.
  - intro H. right. exists m. split; [reflexivity|].
    destruct (methods_reject request m) eqn:Hm; [discriminate|].
    split; [now apply methods_reject_false|].
    intros ps Hps. rewrite Hps in H. now apply array_some_true.
  - intros [H|(m' & [= <-] & Hm & Hp)]; [discriminate|].
    apply methods_reject_false in Hm. rewrite Hm.
    destruct (patterns m) as [ps|]; [|reflexivity].
    apply array_some_true. now apply Hp.
Qed.

Lemma middleware_runs_iff_witness :
  shouldRunMiddleware (mkRequest "/api/users" "POST")
    (mkModule (Some (mkSettings (Some
       (mkMatcher (Some [PString "/admin"; PString "/api/*"])
                  (Some ["get"%str; "post"%str])))))) = Some true.
Proof.
  apply middleware_runs_iff.
  - intros m ps [= <-] [= <-]. reflexivity.
  - right. eexists. split; [reflexivity|]. split.
    + intros ms [= <-]. exists "post". split; [cbn; tauto | reflexivity].
    + intros ps [= <-]. exists [PString "/admin"], (PString "/api/*"), [].
      repeat split. repeat constructor.
Defined.

(** X2.  For a matcher whose globs compile to sources of the fragment,
    [shouldRunMiddleware] throws exactly when the method clause lets the
    request through and the pattern clause reaches, before any pattern
    that accepts the path, a string pattern with a [*] that is not the
    path itself and whose compiled source is malformed ([new RegExp]
    throws a [SyntaxError]).  In particular it never throws when the
    method is refused or when there is no pattern clause. *)
Theorem middleware_throws_iff :
  forall request mw,
    modelled mw ->
    (shouldRunMiddleware request mw = None <->
     exists m ps l1 s l2,
       matcher_of mw = Some m /\ methods_reject request m = false /\
       patterns m = Some ps /\ ps = l1 ++ PString s :: l2 /\
       Forall (fun q => matchesPattern (pathname request) q = Some false) l1 /\
       s <> pathname request /\ includes "*" s = true /\
       RegExp_throws (globToRegex_source s) = true).
Proof.
  intros request mw Hmod. unfold shouldRunMiddleware.
  destruct (matcher_of mw) as [m|] eqn:Hmw.
  2:{ split; [discriminate|]. intros (m & ps & l1 & s & l2 & H & _). discriminate. }
  rewrite pattern_clause. split.
  - destruct (methods_reject request m) eqn:Hm; [discriminate|].
    destruct (patterns m) as [ps|] eqn:Hps; [|discriminate].
    intro H. apply array_some_none in H as (l1 & p & l2 & E & Hl1 & Hp).
    apply matchesPattern_none in Hp as (s & -> & Hne & Hs & Hg).
    exists m, ps, l1, s, l2. repeat split; try assumption.
    apply (modelled_glob_throws s ps); try assumption.
    + exact (Hmod m ps Hmw Hps).
    + subst ps. apply in_or_app. right. now left.
  - intros (m' & ps & l1 & s & l2 & [= <-] & Hm & Hps & E & Hl1 & Hne & Hs & Hg).
    rewrite Hm, Hps. apply array_some_none.
    exists l1, (PString s), l2. repeat split; [assumption..|].
    apply matchesPattern_none. exists s. repeat split; try assumption.
    apply (modelled_glob_throws s ps); try assumption.
    + exact (Hmod m ps Hmw Hps).
    + subst ps. apply in_or_app. right. now left.
Qed.

Lemma middleware_throws_iff_witness :
  shouldRunMiddleware (mkRequest "/api/users" "GET")
    (mkModule (Some (mkSettings (Some
       (mkMatcher (Some [PString "/admin"; PString ("/a(" ++ "*"); PString "/api/*"])
                  None))))) = None /\
  shouldRunMiddleware (mkRequest "/api/users" "POST")
    (mkModule (Some (mkSettings (Some
       (mkMatcher (Some [PString "/admin"; PString ("/a(" ++ "*"); PString "/api/*"])
                  (Some ["GET"%str])))))) <> None.
Proof.
  split.
  - apply middleware_throws_iff.
    + intros m ps [= <-] [= <-]. reflexivity.
    + eexists _, _, [PString "/admin"], ("/a(" ++ "*"), [PString "/api/*"].
      repeat split; try reflexivity; try discriminate. repeat constructor.
  - intro H. apply middleware_throws_iff in H.
    + destruct H as (m & ps & l1 & s & l2 & [= <-] & Hm & _). discriminate.
    + intros m ps [= <-] [= <-]. reflexivity.
Defined.

(** ** The order of the patterns, the letter case of the methods *)

Lemma array_some_decided {A : Type} (f : A -> option bool) (l : list A) :
  Forall (fun x => f x <> None) l ->
  array_some f l = Some (existsb (fun x => match f x with
                                           | Some b => b
                                           | None => false
                                           end) l).
Proof.
  induction 1 as [|a l Ha _ IH]; simpl; [reflexivity|].
  destruct (f a) as [[|]|]; [reflexivity | exact IH | contradiction].
Qed.

Lemma existsb_Permutation {A : Type} (g : A -> bool) (l l' : list A) :
  Permutation l l' -> existsb g l = existsb g l'.
Proof.
  induction 1 as [|x l l' _ IH|x y l|l l' l'' _ IH1 _ IH2]; simpl.
  - reflexivity.
  - now rewrite IH.
  - now destruct (g x), (g y).
  - now rewrite IH1.
Qed.

Lemma array_some_false {A : Type} (f : A -> option bool) (l : list A) :
  array_some f l = Some false <-> Forall (fun x => f x = Some false) l.
Proof.
  induction l as [|a l IH]; simpl.
  - split; [constructor | reflexivity].
  - destruct (f a) as [[|]|] eqn:Ea.
    + split; [discriminate|]. intro H. inversion H; subst. congruence.
    + rewrite IH. split; [now constructor|]. intro H. now inversion H.
    + split; [discriminate|]. intro H. inversion H; subst. congruence.
Qed.

(** X3.  The order of the patterns decides nothing but whether a pattern
    that fails to compile is reached: two matchers that differ by the order
    of their patterns never give opposite verdicts, and give the same
    verdict when every pattern is evaluated without exception. *)
Theorem pattern_order_is_irrelevant :
  forall request ms ps qs,
    Permutation ps qs ->
    let run l :=
      shouldRunMiddleware request
        (mkModule (Some (mkSettings (Some (mkMatcher (Some l) ms))))) in
    (forall b b', run ps = Some b -> run qs = Some b' -> b = b') /\
    (Forall (fun p => matchesPattern (pathname request) p <> None) ps ->
     run ps = run qs).
Proof.
  intros request ms ps qs HP run. subst run. unfold shouldRunMiddleware.
  cbn [matcher_of unstable_settings matcher].
  rewrite (pattern_clause request (mkMatcher (Some ps) ms)),
          (pattern_clause request (mkMatcher (Some qs) ms)).
  change (methods_reject request (mkMatcher (Some qs) ms))
    with (methods_reject request (mkMatcher (Some ps) ms)).
  destruct (methods_reject request (mkMatcher (Some ps) ms)).
  { split; [congruence | reflexivity]. }
  cbn [patterns]. split.
  - intros [|] [|] H1 H2; try reflexivity; exfalso.
    + apply array_some_true in H1 as (l1 & x & l2 & -> & _ & Hx).
      apply array_some_false in H2. rewrite Forall_forall in H2.
      assert (Hin : In x qs).
      { apply (Permutation_in x HP), in_or_app. right. now left. }
      specialize (H2 x Hin). congruence.
    + apply array_some_true in H2 as (l1 & x & l2 & -> & _ & Hx).
      apply array_some_false in H1. rewrite Forall_forall in H1.
      assert (Hin : In x ps).
      { apply (Permutation_in x (Permutation_sym HP)), in_or_app.
        right. now left. }
      specialize (H1 x Hin). congruence.
  - intro Hd.
    assert (Hd' : Forall (fun p => matchesPattern (pathname request) p <> None) qs).
    { rewrite Forall_forall in *. intros x Hx. apply Hd.
      exact (Permutation_in x (Permutation_sym HP) Hx). }
    rewrite (array_some_decided _ ps Hd), (array_some_decided _ qs Hd').
    f_equal. now apply existsb_Permutation.
Qed.

Lemma pattern_order_is_irrelevant_witness :
  shouldRunMiddleware (mkRequest "/b" "GET")
    (mkModule (Some (mkSettings (Some
       (mkMatcher (Some [PString "/a/*"; PString "/b"]) None))))) =
  shouldRunMiddleware (mkRequest "/b" "GET")
    (mkModule (Some (mkSettings (Some
       (mkMatcher (Some [PString "/b"; PString "/a/*"]) None))))).
Proof.
  refine (proj2 (pattern_order_is_irrelevant (mkRequest "/b" "GET") None
                   [PString "/a/*"; PString "/b"] [PString "/b"; PString "/a/*"]
                   _) _).
  - apply perm_swap.
  - repeat constructor; discriminate.
Defined.

Lemma upper_char_not_lower c : is_lower (upper_char c) = false.
Proof.
  destruct c as [[|] [|] [|] [|] [|] [|] [|] [|]]; reflexivity.
Qed.

Lemma toUpperCase_not_lower s : existsb is_lower (toUpperCase s) = false.
Proof.
  induction s as [|c s IH]; simpl; [reflexivity|].
  now rewrite upper_char_not_lower, IH.
Qed.

(** X4.  A request whose method holds a lower-case letter passes no method
    clause: whatever methods are configured, in whatever letter case, and
    whatever the patterns, [shouldRunMiddleware] answers [false]. *)
Theorem lowercase_request_method_never_passes :
  forall request mw m ms,
    existsb is_lower (method request) = true ->
    matcher_of mw = Some m -> methods m = Some ms ->
    shouldRunMiddleware request mw = Some false.
Proof.
  intros request mw m ms Hl Hmw Hms. unfold shouldRunMiddleware.
  rewrite Hmw.
  assert (E : methods_reject request m = true).
  { destruct (methods_reject request m) eqn:E; [reflexivity|].
    destruct (proj1 (methods_reject_false request m) E ms Hms) as (x & _ & Hx).
    rewrite Hx, toUpperCase_not_lower in Hl. discriminate. }
  now rewrite E.
Qed.

Lemma lowercase_request_method_never_passes_witness :
  shouldRunMiddleware (mkRequest "/api" "Get")
    (mkModule (Some (mkSettings (Some
       (mkMatcher (Some [PString "/api"]) (Some ["get"%str; "Get"%str; "GET"%str])))))) =
  Some false.
Proof.
  apply (lowercase_request_method_never_passes (mkRequest "/api" "Get") _
           (mkMatcher (Some [PString "/api"]) (Some ["get"%str; "Get"%str; "GET"%str]))
           ["get"%str; "Get"%str; "GET"%str]); reflexivity.
Defined.

Lemma matchesPattern_wildcard_free path p :
  wildcard_free p = true ->
  Legacy.matchesPattern path p = matchesPattern path p.
Proof.
  destruct p as [s|r|]; simpl; try reflexivity.
  intro H. apply negb_true_iff in H. now rewrite H.
Qed.

Lemma array_some_ext {A : Type} (f g : A -> option bool) (l : list A) :
  Forall (fun x => f x = g x) l -> array_some f l = array_some g l.
Proof.
  induction 1 as [|a l Ha _ IH]; simpl; [reflexivity|].
  now rewrite Ha, IH.
Qed.

(** X5.  The two versions of [shouldRunMiddleware] differ by the letter
    case of the configured methods and by the glob compiler only: for a
    matcher whose methods are written in upper case and whose patterns
    hold no string with a [*], the earlier version and the current one
    return the same result. *)
Theorem versions_agree_outside_globs_and_case :
  forall request mw,
    (forall m ms, matcher_of mw = Some m -> methods m = Some ms ->
       map toUpperCase ms = ms) ->
    (forall m ps, matcher_of mw = Some m -> patterns m = Some ps ->
       forallb wildcard_free ps = true) ->
    Legacy.shouldRunMiddleware request mw = shouldRunMiddleware request mw.
Proof.
  intros request mw Hms Hps.
  unfold Legacy.shouldRunMiddleware, shouldRunMiddleware.
  destruct (matcher_of mw) as [m|]; [|reflexivity].
  assert (E : Legacy.methods_reject request m = methods_reject request m).
  { unfold Legacy.methods_reject, methods_reject.
    destruct (methods m) as [ms|] eqn:E; [|reflexivity].
    now rewrite (Hms m ms eq_refl E). }
  rewrite E. destruct (methods_reject request m); [reflexivity|].
  destruct (patterns m) as [ps|] eqn:Ep; [|reflexivity].
  destruct (length ps =? 0); [reflexivity|].
  apply array_some_ext. specialize (Hps m ps eq_refl Ep).
  rewrite forallb_forall in Hps. apply Forall_forall. intros p Hp.
  now apply matchesPattern_wildcard_free, Hps.
Qed.

Lemma versions_agree_outside_globs_and_case_witness :
  Legacy.shouldRunMiddleware (mkRequest "/api" "GET")
    (mkModule (Some (mkSettings (Some
       (mkMatcher (Some [PString "/admin"; PString "/api"]) (Some ["POST"%str; "GET"%str])))))) =
  shouldRunMiddleware (mkRequest "/api" "GET")
    (mkModule (Some (mkSettings (Some
       (mkMatcher (Some [PString "/admin"; PString "/api"]) (Some ["POST"%str; "GET"%str])))))).
Proof.
  apply versions_agree_outside_globs_and_case.
  - intros m ms [= <-] [= <-]. reflexivity.
  - intros m ps [= <-] [= <-]. reflexivity.
Defined.

(** ** [matchesPattern]: a regular expression is searched for *)

(** An expression without anchor consumes the same text wherever it
    stands. *)
Lemma Match_anchor_free r b m post :
  Match r b m post -> anchor_free r = true ->
  forall b' post', Match r b' m post'.
Proof.
  induction 1 as [b post|p b c post Hc|post|b|r1 r2 b m1 m2 post _ IH1 _ IH2
                 |r1 r2 b m post _ IH|r1 r2 b m post _ IH|r b post
                 |r b m1 m2 post _ IH1 _ IH2];
    cbn [anchor_free]; intros Ha b' post'; try discriminate.
  - constructor.
  - now constructor.
  - apply andb_true_iff in Ha as [Ha1 Ha2]. constructor; auto.
  - apply andb_true_iff in Ha as [Ha1 _]. apply MAltL; auto.
  - apply andb_true_iff in Ha as [_ Ha2]. apply MAltR; auto.
  - constructor.
  - apply MStarS; auto.
Qed.

(** X6.  A regular expression given as a pattern is searched for in the
    path, not matched against the whole of it.  For an expression made
    without flags from a source of the fragment (characters, [.], sets,
    groups, alternation, the quantifiers [*], [+] and [?]) that holds
    neither [^] nor [$]: if it accepts a path, it accepts every text that
    contains that path.  Flags, word boundaries, look-around and
    back-references, which can tie an expression without anchor to a
    position, are outside the fragment and outside this statement. *)
Theorem regexp_pattern_is_searched_unanchored :
  forall source r path,
    RegExp_new source = Some r -> anchor_free r = true ->
    matchesPattern path (PRegExp r) = Some true ->
    forall pre post, matchesPattern (pre ++ path ++ post) (PRegExp r) = Some true.
Proof.
  intros source r path _ Ha H pre post. cbn [matchesPattern] in *.
  injection H as H. f_equal.
  apply RegExp_test_spec in H as (pre' & m & post' & -> & HM).
  apply RegExp_test_spec. exists (pre ++ pre'), m, (post' ++ post). split.
  - now rewrite <- !app_assoc.
  - exact (Match_anchor_free r _ m post' HM Ha _ _).
Qed.

Lemma regexp_pattern_is_searched_unanchored_witness :
  exists r, RegExp_new "/(api|admin)" = Some r /\
            matchesPattern "/v1/admin/users" (PRegExp r) = Some true.
Proof.
  eexists. split; [reflexivity|].
  apply (regexp_pattern_is_searched_unanchored "/(api|admin)" _ "/admin"
           eq_refl eq_refl eq_refl "/v1" "/users").
Defined.

(** ** Simple globs: literal segments and [*] segments *)

Lemma split_path_of seg segs :
  no_slash seg = true -> Forall (fun s => no_slash s = true) segs ->
  split "/" (seg ++ path_of segs) = seg :: segs.
Proof.
  intros Hseg H. revert seg Hseg.
  induction H as [|s segs Hs _ IH]; intros seg Hseg.
  - unfold path_of. cbn [map concat]. rewrite app_nil_r.
    apply split_no_sep. unfold no_slash in Hseg. now apply negb_true_iff.
  - change (path_of (s :: segs)) with ("/"%char :: (s ++ path_of segs)).
    rewrite split_app_sep, (IH s Hs), split_no_sep; [reflexivity|].
    unfold no_slash in Hseg. now apply negb_true_iff.
Qed.

Lemma simple_segment_inv seg : simple_segment seg = true ->
  no_slash seg = true /\ (seg = "*" \/ (seg <> "*" /\ includes "*" seg = false)).
Proof.
  unfold simple_segment. intro H. apply andb_true_iff in H as [H1 H2].
  split; [assumption|]. destruct (str_eqb seg "*") eqn:E.
  - left. now apply str_eqb_eq.
  - right. split; [now apply str_eqb_neq | now apply negb_true_iff].
Qed.

Lemma transformSegment_simple n i seg : simple_segment seg = true ->
  transformSegment n i seg = simple_source seg.
Proof.
  intro H. apply simple_segment_inv in H as [_ [->|[Hne Hs]]].
  - apply transformSegment_star.
  - unfold simple_source. apply str_eqb_neq in Hne. rewrite Hne.
    now apply transformSegment_literal.
Qed.

Lemma simple_source_slash seg : exists t, simple_source seg = "/" ++ t.
Proof.
  unfold simple_source, literal_segment.
  destruct (str_eqb seg "*"); [now exists "[^/]+" | now exists (escapeRegex seg)].
Qed.

(** The source text of a simple glob: its segments' texts, in order,
    between [^] and [$]. *)
Lemma source_simple segs :
  segs <> [] -> forallb simple_segment segs = true ->
  globToRegex_source (path_of segs) =
  "^" ++ concat (map simple_source segs) ++ "$".
Proof.
  intros Hne H. destruct segs as [|seg segs]; [contradiction|].
  assert (Hall : Forall (fun s => simple_segment s = true) (seg :: segs))
    by (apply Forall_forall; now apply forallb_forall).
  assert (Hns : Forall (fun s => no_slash s = true) (seg :: segs)).
  { eapply Forall_impl; [|exact Hall]. intros s Hs.
    now apply simple_segment_inv in Hs. }
  inversion Hns as [|? ? Hseg Hsegs]; subst.
  assert (Esplit : split "/" (slice_from1 (path_of (seg :: segs))) = seg :: segs).
  { change (slice_from1 (path_of (seg :: segs))) with (seg ++ path_of segs).
    now apply split_path_of. }
  unfold globToRegex_source.
  destruct (str_eqb (path_of (seg :: segs)) "/**") eqn:E.
  { exfalso. apply str_eqb_eq in E. rewrite E in Esplit.
    injection Esplit as <- _. inversion Hall; subst. discriminate. }
  rewrite Esplit. unfold mapi.
  rewrite (mapi_from_map _ simple_source).
  2:{ eapply Forall_impl; [|exact Hall]. intros s Hs j.
      now apply transformSegment_simple. }
  unfold join_empty. cbn [map concat].
  destruct (simple_source_slash seg) as (t & ->). reflexivity.
Qed.

Lemma steps_simple_source seg sq q rest :
  simple_segment seg = true ->
  exists q',
    steps (mkPstate [] (mkFrame [] sq) q MNormal) (simple_source seg ++ rest) =
    steps (mkPstate [] (mkFrame [] (rev (simple_terms seg) ++ sq)) q' MNormal) rest.
Proof.
  intro H. apply simple_segment_inv in H as [_ [->|[Hne Hs]]].
  - exists QQuant. reflexivity.
  - unfold simple_source, simple_terms. apply str_eqb_neq in Hne. rewrite Hne.
    exists QAtom. unfold literal_segment.
    change (("/" ++ escapeRegex seg) ++ rest)
      with (escapeRegex ("/" ++ seg) ++ rest).
    rewrite steps_escapeRegex; [reflexivity|]. exact Hs.
Qed.

Lemma steps_simple_sources segs : forall sq q rest,
  forallb simple_segment segs = true ->
  exists q',
    steps (mkPstate [] (mkFrame [] sq) q MNormal)
          (concat (map simple_source segs) ++ rest) =
    steps (mkPstate [] (mkFrame [] (rev (flat_map simple_terms segs) ++ sq))
                    q' MNormal) rest.
Proof.
  induction segs as [|seg segs IH]; intros sq q rest H.
  - exists q. reflexivity.
  - cbn [forallb] in H. apply andb_true_iff in H as [Hseg Hsegs].
    cbn [map concat flat_map]. rewrite <- app_assoc.
    destruct (steps_simple_source seg sq q
                (concat (map simple_source segs) ++ rest) Hseg) as (q1 & ->).
    destruct (IH (rev (simple_terms seg) ++ sq) q1 rest Hsegs) as (q2 & ->).
    exists q2. now rewrite rev_app_distr, <- app_assoc.
Qed.

Lemma simple_regex segs :
  segs <> [] -> forallb simple_segment segs = true ->
  globToRegex (path_of segs) =
  Some (seq_of (Bol :: flat_map simple_terms segs ++ [Eol])).
Proof.
  intros Hne H. unfold globToRegex, RegExp_new.
  rewrite source_simple by assumption.
  change (steps p_init ("^" ++ concat (map simple_source segs) ++ "$"))
    with (steps (mkPstate [] (mkFrame [] [Bol]) QNone MNormal)
                (concat (map simple_source segs) ++ "$")).
  destruct (steps_simple_sources segs [Bol] QNone "$" H) as (q & ->).
  rewrite finish_at_dollar. do 2 f_equal.
  rewrite rev_app_distr, rev_involutive. reflexivity.
Qed.

Lemma Match_simple_terms seg b m post : simple_segment seg = true ->
  Match (seq_of (simple_terms seg)) b m post <->
  exists pseg, accepts_segment seg pseg /\ m = "/" ++ pseg.
Proof.
  intro H. apply simple_segment_inv in H as [_ [->|[Hne Hs]]].
  - unfold accepts_segment. cbn [simple_terms str_eqb Ascii.eqb].
    change (simple_terms "*") with [lit "/"; Plus not_slash].
    rewrite Match_seq_cons. split.
    + intros (m1 & m2 & -> & H1 & H2).
      apply Match_Chr_iff in H1 as (c & -> & Hc).
      apply Ascii.eqb_eq in Hc as ->.
      apply Match_seq_cons in H2 as (m3 & m4 & -> & H3 & H4).
      apply Match_seq_nil in H4 as ->.
      apply Match_Plus_Chr_iff in H3 as [Hn Hf].
      rewrite forallb_no_slash in Hf. rewrite app_nil_r.
      exists m3. now repeat split.
    + intros (pseg & [Hn Hf] & ->). exists "/", pseg. repeat split.
      * apply Match_Chr_iff. exists "/"%char. now split.
      * apply Match_seq_cons. exists pseg, []. rewrite app_nil_r.
        repeat split; [|now apply Match_seq_nil].
        apply Match_Plus_Chr_iff. split; [assumption|].
        now rewrite forallb_no_slash.
  - unfold accepts_segment, simple_terms. apply str_eqb_neq in Hne.
    rewrite Hne. rewrite <- (app_nil_r (lits ("/" ++ seg))), Match_seq_lits.
    split.
    + intros (m' & -> & H'). apply Match_seq_nil in H' as ->.
      exists seg. now rewrite app_nil_r.
    + intros (pseg & -> & ->). exists []. rewrite app_nil_r.
      split; [reflexivity | now apply Match_seq_nil].
Qed.

Lemma Match_simple_glob segs : forallb simple_segment segs = true ->
  forall b m post,
    Match (seq_of (flat_map simple_terms segs)) b m post <->
    exists psegs, Forall2 accepts_segment segs psegs /\ m = path_of psegs.
Proof.
  induction segs as [|seg segs IH]; intros H b m post.
  - cbn [flat_map]. rewrite Match_seq_nil. split.
    + intros ->. exists []. now split.
    + intros (psegs & HF & ->). now inversion HF.
  - cbn [forallb] in H. apply andb_true_iff in H as [Hseg Hsegs].
    cbn [flat_map]. rewrite Match_seq_app. split.
    + intros (m1 & m2 & -> & H1 & H2).
      apply (Match_simple_terms seg _ _ _ Hseg) in H1 as (pseg & Hp & ->).
      apply (IH Hsegs) in H2 as (psegs & HF & ->).
      exists (pseg :: psegs). split; [now constructor|].
      unfold path_of. cbn [map concat]. now rewrite <- app_assoc.
    + intros (psegs & HF & ->). inversion HF as [|? pseg ? psegs' Hp HF']; subst.
      exists ("/" ++ pseg), (path_of psegs'). repeat split.
      * apply (Match_simple_terms seg _ _ _ Hseg). now exists pseg.
      * apply (IH Hsegs). now exists psegs'.
Qed.

Lemma accepts_segment_refl seg : simple_segment seg = true ->
  accepts_segment seg seg.
Proof.
  intro H. apply simple_segment_inv in H as [Hns [->|[Hne Hs]]].
  - split; [discriminate | reflexivity].
  - unfold accepts_segment. apply str_eqb_neq in Hne. now rewrite Hne.
Qed.

Lemma includes_path_of c segs :
  includes c (path_of segs) = false ->
  Forall (fun s => includes c s = false) segs.
Proof.
  induction segs as [|seg segs IH]; intro H; [constructor|].
  change (path_of (seg :: segs)) with ("/"%char :: seg ++ path_of segs) in H.
  rewrite includes_cons, includes_app in H.
  apply orb_false_iff in H as [_ H]. apply orb_false_iff in H as [H1 H2].
  constructor; auto.
Qed.

Lemma simple_glob_matchesPattern segs path :
  segs <> [] -> forallb simple_segment segs = true ->
  exists v, matchesPattern path (PString (path_of segs)) = Some v /\
            (v = true <->
             exists psegs, Forall2 accepts_segment segs psegs /\
                           path = path_of psegs).
Proof.
  intros Hne H.
  assert (Hself : exists psegs, Forall2 accepts_segment segs psegs /\
                                path_of segs = path_of psegs).
  { exists segs. split; [|reflexivity].
    assert (Hall : Forall (fun s => simple_segment s = true) segs)
      by (apply Forall_forall; now apply forallb_forall).
    clear Hne H.
    induction Hall; constructor; [now apply accepts_segment_refl | assumption]. }
  unfold matchesPattern. destruct (str_eqb (path_of segs) path) eqn:E.
  { apply str_eqb_eq in E as <-. exists true. now split. }
  destruct (includes "*" (path_of segs)) eqn:Hs.
  - rewrite simple_regex by assumption. eexists. split; [reflexivity|].
    rewrite RegExp_test_anchored. now apply Match_simple_glob.
  - exists false. split; [reflexivity|]. split; [discriminate|].
    intros (psegs & HF & ->). exfalso. apply str_eqb_neq in E. apply E.
    f_equal. apply includes_path_of in Hs. clear -HF Hs.
    induction HF as [|seg pseg segs psegs Hp _ IH]; [reflexivity|].
    inversion Hs as [|? ? Hseg Hsegs]; subst. f_equal; [|now apply IH].
    unfold accepts_segment in Hp. destruct (str_eqb seg "*") eqn:E.
    + apply str_eqb_eq in E as ->. discriminate.
    + now symmetry.
Qed.

(** X7.  A glob made of literal segments and of bare [*] segments is
    matched segment by segment: it accepts exactly the paths with as many
    segments as it has, each one equal to the literal segment in its place
    or, in the place of a [*], not empty.  It refuses every other path,
    without exception. *)
Theorem simple_glob_matches_segmentwise :
  forall segs path,
    segs <> [] -> forallb simple_segment segs = true ->
    (matches path (path_of segs) <->
     exists psegs, Forall2 accepts_segment segs psegs /\ path = path_of psegs) /\
    (rejects path (path_of segs) <->
     ~ exists psegs, Forall2 accepts_segment segs psegs /\ path = path_of psegs).
Proof.
  intros segs path Hne H.
  apply decided, simple_glob_matchesPattern; assumption.
Qed.

Lemma simple_glob_matches_segmentwise_witness :
  matches "/api/v1/users" "/api/*/users" /\ rejects "/api/users" "/api/*/users".
Proof.
  destruct (simple_glob_matches_segmentwise ["api"%str; "*"%str; "users"%str]
              "/api/v1/users") as [H1 _]; [discriminate | reflexivity |].
  destruct (simple_glob_matches_segmentwise ["api"%str; "*"%str; "users"%str]
              "/api/users") as [_ H2]; [discriminate | reflexivity |].
  split.
  - apply H1. exists ["api"%str; "v1"%str; "users"%str]. split; [|reflexivity].
    repeat constructor. discriminate.
  - apply H2. intros (psegs & HF & E).
    inversion HF as [|? p1 ? l1 A1 HF1]; subst.
    inversion HF1 as [|? p2 ? l2 A2 HF2]; subst.
    inversion HF2 as [|? p3 ? l3 A3 HF3]; subst.
    inversion HF3; subst.
    cbv [accepts_segment str_eqb Ascii.eqb Bool.eqb andb] in A1, A2, A3.
    subst p1 p3. apply (f_equal (@length ascii)) in E.
    unfold path_of in E. cbn [map concat] in E.
    rewrite !length_app in E. cbn [length] in E. lia.
Defined.

(** ** A [**] segment between literal segments *)

Lemma source_interior_double_star b rest :
  includes "*" b = false -> includes "*" rest = false ->
  globToRegex_source ("/" ++ b ++ "/**/" ++ rest) =
  "^/" ++ escapeRegex b ++ "(?:/.*)?/" ++ escapeRegex rest ++ "$".
Proof.
  intros Hb Hrest. unfold globToRegex_source.
  assert (E : str_eqb ("/" ++ b ++ "/**/" ++ rest) "/**" = false).
  { destruct b as [|c b]; [reflexivity|].
    rewrite includes_cons in Hb. apply orb_false_iff in Hb as [Hc _].
    rewrite Ascii.eqb_sym in Hc. now apply not_double_star. }
  rewrite E.
  change (slice_from1 ("/" ++ b ++ "/**/" ++ rest))
    with (b ++ "/"%char :: ("**" ++ "/"%char :: rest)).
  rewrite split_app_sep, split_app_sep. change (split "/" "**") with ["**"%str].
  unfold mapi. rewrite mapi_from_app, literal_segments by assumption.
  pose proof (split_not_nil "/" b) as Hne.
  cbn [app mapi_from]. rewrite literal_segments by assumption.
  match goal with
  | |- context [transformSegment ?n ?i "**"] =>
      assert (E2 : transformSegment n i "**" = "(?:/.*)?")
  end.
  { unfold transformSegment. cbn [str_eqb Ascii.eqb Bool.eqb andb].
    destruct (split "/" b) as [|seg segs]; [contradiction|].
    cbn [length Nat.add Nat.eqb andb].
    match goal with |- (if ?c then _ else _) = _ => now destruct c end. }
  rewrite E2. unfold join_empty.
  rewrite concat_app. cbn [concat]. rewrite !concat_literal_segments.
  rewrite <- app_assoc, startsWith_app. cbn [app].
  rewrite <- !app_assoc. reflexivity.
Qed.

Lemma interior_double_star_regex b rest :
  includes "*" b = false -> includes "*" rest = false ->
  globToRegex ("/" ++ b ++ "/**/" ++ rest) =
  Some (seq_of (Bol :: (lits ("/" ++ b) ++
                        (Opt (seq_of [lit "/"; Star dot]) :: lits ("/" ++ rest)))
                       ++ [Eol])).
Proof.
  intros Hb Hrest. unfold globToRegex.
  rewrite source_interior_double_star by assumption.
  apply RegExp_new_anchored with (q := QNone); [assumption|]. intro sq.
  change (steps (mkPstate [] (mkFrame [] sq) QAtom MNormal)
                ("(?:/.*)?/" ++ escapeRegex rest ++ "$"))
    with (steps (mkPstate [] (mkFrame [] (Opt (seq_of [lit "/"; Star dot]) :: sq))
                          QQuant MNormal)
                (escapeRegex ("/" ++ rest) ++ "$")).
  rewrite steps_escapeRegex by exact Hrest.
  cbn [is_nil app]. cbn [steps step p_mode]. unfold lits.
  cbn [map rev]. rewrite <- !app_assoc. reflexivity.
Qed.

Lemma interior_double_star_test b rest path :
  RegExp_test
    (seq_of (Bol :: (lits ("/" ++ b) ++
                     (Opt (seq_of [lit "/"; Star dot]) :: lits ("/" ++ rest)))
                    ++ [Eol]))
    path = true <->
  with_segments_between b rest path.
Proof.
  rewrite RegExp_test_anchored_literal. unfold with_segments_between. split.
  - intros (m & -> & H).
    apply Match_seq_cons in H as (m1 & m2 & -> & H1 & H2).
    rewrite <- (app_nil_r (lits ("/" ++ rest))) in H2.
    apply Match_seq_lits in H2 as (m' & -> & H2).
    apply Match_seq_nil in H2 as ->. rewrite app_nil_r.
    apply Match_Opt_iff in H1 as [H1| ->].
    + right. apply (Match_seq_lits "/" [Star dot]) in H1 as (t & -> & H1).
      apply Match_seq_cons in H1 as (m3 & m4 & -> & H3 & H4).
      apply Match_seq_nil in H4 as ->. rewrite app_nil_r.
      apply Match_Star_Chr_iff in H3. exists m3.
      split; [assumption|]. now rewrite <- !app_assoc.
    + now left.
  - assert (Hrest : forall b' post,
              Match (seq_of (lits ("/" ++ rest))) b' ("/" ++ rest) post).
    { intros b' post. rewrite <- (app_nil_r (lits ("/" ++ rest))).
      apply Match_seq_lits. exists []. rewrite app_nil_r.
      split; [reflexivity | constructor]. }
    intros [-> | (t & Ht & ->)].
    + exists ("/" ++ rest). split; [reflexivity|].
      apply Match_seq_cons. exists [], ("/" ++ rest). split; [reflexivity|].
      split; [|apply Hrest]. apply Match_Opt_iff. now right.
    + exists (("/" ++ t) ++ "/" ++ rest). split; [now rewrite <- !app_assoc|].
      apply Match_seq_cons. exists ("/" ++ t), ("/" ++ rest).
      split; [reflexivity|]. split; [|apply Hrest].
      apply Match_Opt_iff. left.
      apply (Match_seq_lits "/" [Star dot]). exists t. split; [reflexivity|].
      apply Match_seq_cons. exists t, []. rewrite app_nil_r.
      split; [reflexivity|]. split; [|constructor].
      now apply Match_Star_Chr_iff.
Qed.

Lemma interior_double_star_matchesPattern b rest path :
  includes "*" b = false -> includes "*" rest = false ->
  exists v, matchesPattern path (PString ("/" ++ b ++ "/**/" ++ rest)) = Some v /\
            (v = true <-> with_segments_between b rest path).
Proof.
  intros Hb Hrest. eexists. split.
  - apply matchesPattern_glob.
    + now apply glob_has_star.
    + now apply interior_double_star_regex.
    + apply interior_double_star_test. right. now exists "**".
  - apply interior_double_star_test.
Qed.

(** X8.  A [**] segment between literal segments stands for any number of
    segments, none included: [/b/**/rest], with [b] and [rest] free of
    wildcards, accepts [/b/rest] and [/b/], anything on one line, then
    [/rest], and refuses every other path. *)
Theorem interior_double_star_takes_any_number_of_segments :
  forall b rest path,
    includes "*" b = false -> includes "*" rest = false ->
    (matches path ("/" ++ b ++ "/**/" ++ rest) <->
     with_segments_between b rest path) /\
    (rejects path ("/" ++ b ++ "/**/" ++ rest) <->
     ~ with_segments_between b rest path) /\
    matches ("/" ++ b ++ "/" ++ rest) ("/" ++ b ++ "/**/" ++ rest) /\
    rejects ("/" ++ b) ("/" ++ b ++ "/**/" ++ rest).
Proof.
  intros b rest path Hb Hrest.
  assert (A : forall q,
             (matches q ("/" ++ b ++ "/**/" ++ rest) <->
              with_segments_between b rest q) /\
             (rejects q ("/" ++ b ++ "/**/" ++ rest) <->
              ~ with_segments_between b rest q)).
  { intro q. apply decided, interior_double_star_matchesPattern; assumption. }
  split; [apply A|]. split; [apply A|]. split.
  - apply A. now left.
  - apply A. intros [E|(t & _ & E)].
    + injection E as E. apply app_eq_self_nil in E. discriminate.
    + injection E as E. apply app_eq_self_nil in E. discriminate.
Qed.

Lemma interior_double_star_takes_any_number_of_segments_witness :
  matches "/api/users" "/api/**/users" /\
  matches "/api/v1/admin/users" "/api/**/users" /\
  rejects "/api/users/settings" "/api/**/users".
Proof.
  pose proof (fun path =>
    interior_double_star_takes_any_number_of_segments "api" "users" path
      eq_refl eq_refl) as H.
  split; [|split].
  - apply (proj1 (H "/api/users")). now left.
  - apply (proj1 (H "/api/v1/admin/users")). right. now exists "v1/admin".
  - apply (proj1 (proj2 (H "/api/users/settings"))).
    intros [E|(t & _ & E)]; [discriminate|].
    apply (f_equal (@rev ascii)) in E.
    change (rev "/api/users/settings") with ("sgnittes/sresu/ipa/")%str in E.
    change ("/" ++ "api" ++ "/" ++ t ++ "/" ++ "users")
      with ("/api/" ++ t ++ "/users") in E.
    rewrite !rev_app_distr in E. cbn [rev app] in E. discriminate.
Defined.

(** ** How [*] and [**] compare *)

(** X9.  At the end of a pattern, after literal segments, [**] accepts
    whatever [*] accepts: a path on one line that [/b/*] accepts is
    accepted by [/b/**], which accepts the base path [/b] and deeper paths
    besides. *)
Theorem trailing_double_star_accepts_what_star_accepts :
  forall b path,
    includes "*" b = false -> no_newline path = true ->
    matches path ("/" ++ b ++ "/*") ->
    matches path ("/" ++ b ++ "/**") /\
    matches ("/" ++ b) ("/" ++ b ++ "/**") /\
    rejects ("/" ++ b) ("/" ++ b ++ "/*").
Proof.
  intros b path Hb Hnl H.
  destruct (trailing_star_matchesPattern b path Hb) as (v & E & Hv).
  unfold matches in H. rewrite E in H. injection H as ->.
  destruct (proj1 Hv eq_refl) as (seg & _ & _ & ->).
  assert (A : forall q, matches q ("/" ++ b ++ "/**") <-> at_or_beneath b q).
  { intro q. apply decided, trailing_double_star_matchesPattern, Hb. }
  split; [|split].
  - apply A. right. exists seg. split; [|reflexivity].
    unfold no_newline in *. cbn [app forallb] in Hnl.
    rewrite forallb_app in Hnl. cbn [app forallb] in Hnl.
    apply andb_true_iff in Hnl as [_ Hnl].
    apply andb_true_iff in Hnl as [_ Hnl].
    now apply andb_true_iff in Hnl as [_ Hnl].
  - apply A. now left.
  - destruct (trailing_star_matchesPattern b ("/" ++ b) Hb) as (v & E' & Hv').
    unfold rejects. rewrite E'. f_equal. destruct v; [|reflexivity].
    destruct (proj1 Hv' eq_refl) as (seg' & _ & _ & E2).
    injection E2 as E2. apply app_eq_self_nil in E2. discriminate.
Qed.

Lemma trailing_double_star_accepts_what_star_accepts_witness :
  matches "/api/users" "/api/**" /\ matches "/api" "/api/**" /\
  rejects "/api" "/api/*".
Proof.
  apply (trailing_double_star_accepts_what_star_accepts "api" "/api/users");
    reflexivity.
Defined.

(** X10.  Glued to literal text at the end of a pattern, [*] and [**] mean
    the same: for [b] free of wildcards whose last segment is plain text
    and not empty, [/b*] and [/b**] give the same answer on every path. *)
Theorem glued_star_and_double_star_agree :
  forall b path,
    includes "*" b = false -> last_segment b <> [] ->
    plain (last_segment b) = true ->
    matchesPattern path (PString ("/" ++ b ++ "*")) =
    matchesPattern path (PString ("/" ++ b ++ "**")).
Proof.
  intros b path Hb Hl Hp.
  destruct (prefix_star_matchesPattern b path Hb Hl Hp) as (v & -> & Hv).
  destruct (prefix_double_star_matchesPattern b path Hb Hl) as (w & -> & Hw).
  f_equal. destruct v, w; try reflexivity.
  - symmetry. apply Hw, Hv. reflexivity.
  - apply Hv, Hw. reflexivity.
Qed.

Lemma glued_star_and_double_star_agree_witness :
  matchesPattern "/api/v1/users" (PString "/api/v*") =
  matchesPattern "/api/v1/users" (PString "/api/v**") /\
  matchesPattern "/api/v1" (PString "/api/v*") =
  matchesPattern "/api/v1" (PString "/api/v**").
Proof.
  split; apply (glued_star_and_double_star_agree "api/v");
    solve [reflexivity | discriminate].
Defined.

(** ** A segment with a [*] is not escaped: [*.ext] *)

Lemma source_star_dot b ext :
  includes "*" b = false -> includes "*" ext = false ->
  includes "/" ext = false -> plain ext = true ->
  globToRegex_source ("/" ++ b ++ "/*." ++ ext) =
  "^/" ++ escapeRegex b ++ "/[^/]*/?." ++ escapeRegex ext ++ "$".
Proof.
  intros Hb He Hs Hp. unfold globToRegex_source.
  assert (E : str_eqb ("/" ++ b ++ "/*." ++ ext) "/**" = false).
  { destruct b as [|c b]; [reflexivity|].
    rewrite includes_cons in Hb. apply orb_false_iff in Hb as [Hc _].
    rewrite Ascii.eqb_sym in Hc. now apply not_double_star. }
  rewrite E.
  change (slice_from1 ("/" ++ b ++ "/*." ++ ext))
    with (b ++ "/"%char :: ("*." ++ ext)).
  rewrite split_app_sep, (split_no_sep "/" ("*." ++ ext))
    by (cbn [app]; now rewrite !includes_cons, Hs).
  unfold mapi. rewrite mapi_from_app, literal_segments by assumption.
  cbn [mapi_from].
  change ("*." ++ ext) with ([] ++ "*" ++ ("." ++ ext)).
  rewrite transformSegment_interior_star;
    [|reflexivity| cbn [app]; now rewrite includes_cons, He | discriminate].
  unfold join_empty. rewrite concat_app, concat_literal_segments.
  cbn [concat]. rewrite app_nil_r, <- app_assoc, startsWith_app.
  rewrite (escapeRegex_plain ext Hp).
  cbn [app]. rewrite <- !app_assoc. reflexivity.
Qed.

Lemma star_dot_regex b ext :
  includes "*" b = false -> includes "*" ext = false ->
  includes "/" ext = false -> plain ext = true ->
  globToRegex ("/" ++ b ++ "/*." ++ ext) =
  Some (seq_of (Bol :: (lits ("/" ++ b) ++
                        ([lit "/"; Star not_slash; Opt (lit "/"); dot] ++ lits ext))
                       ++ [Eol])).
Proof.
  intros Hb He Hs Hp. unfold globToRegex.
  rewrite source_star_dot by assumption.
  apply RegExp_new_anchored with (q := QNone); [assumption|]. intro sq.
  change (steps (mkPstate [] (mkFrame [] sq) QAtom MNormal)
                ("/[^/]*/?." ++ escapeRegex ext ++ "$"))
    with (steps (mkPstate [] (mkFrame []
                   (dot :: Opt (lit "/") :: Star not_slash :: lit "/" :: sq))
                   QAtom MNormal)
                (escapeRegex ext ++ "$")).
  rewrite steps_escapeRegex by exact He.
  cbn [steps step p_mode].
  cbn [step_normal Ascii.eqb Bool.eqb push_term p_mode p_stack p_cur f_seq f_alts].
  rewrite rev_app_distr. cbn [rev app]. rewrite <- !app_assoc. reflexivity.
Qed.

Lemma star_dot_test b ext path :
  RegExp_test
    (seq_of (Bol :: (lits ("/" ++ b) ++
                     ([lit "/"; Star not_slash; Opt (lit "/"); dot] ++ lits ext))
                    ++ [Eol]))
    path = true <->
  any_character_then b ext path.
Proof.
  rewrite RegExp_test_anchored_literal. unfold any_character_then.
  assert (Hext : forall b' post, Match (seq_of (lits ext)) b' ext post).
  { intros b' post. rewrite <- (app_nil_r (lits ext)).
    apply Match_seq_lits. exists []. rewrite app_nil_r.
    split; [reflexivity | constructor]. }
  split.
  - intros (m & -> & H).
    apply (Match_seq_lits "/" (Star not_slash :: Opt (lit "/") :: dot :: lits ext))
      in H as (m0 & -> & H).
    apply Match_seq_cons in H as (s & m1 & -> & Hs & H).
    apply Match_Star_Chr_iff in Hs. rewrite forallb_no_slash in Hs.
    apply Match_seq_cons in H as (o & m2 & -> & Ho & H).
    apply Match_seq_cons in H as (d & m3 & -> & Hd & H).
    apply Match_Chr_iff in Hd as (c & -> & Hc).
    rewrite <- (app_nil_r (lits ext)) in H.
    apply Match_seq_lits in H as (m' & -> & H).
    apply Match_seq_nil in H as ->. rewrite app_nil_r.
    apply negb_true_iff in Hc.
    exists s, c. split; [assumption|]. split; [assumption|].
    apply Match_Opt_iff in Ho as [Ho| ->].
    + apply Match_Chr_iff in Ho as (x & -> & Hx).
      apply Ascii.eqb_eq in Hx as ->. now right.
    + now left.
  - intros (s & c & Hs & Hc & E).
    assert (Hd : forall post, Match (seq_of (dot :: lits ext)) false (c :: ext) post).
    { intro post. apply Match_seq_cons. exists [c], ext.
      split; [reflexivity|]. split; [|apply Hext].
      apply Match_Chr_iff. exists c. split; [reflexivity|].
      now apply negb_true_iff. }
    assert (Hstar : forall post, Match (Star not_slash) false s post).
    { intro post. apply Match_Star_Chr_iff. now rewrite forallb_no_slash. }
    destruct E as [-> | ->].
    + exists ("/" ++ s ++ c :: ext). split; [reflexivity|].
      apply (Match_seq_lits "/"
               (Star not_slash :: Opt (lit "/") :: dot :: lits ext)).
      exists (s ++ c :: ext). split; [reflexivity|].
      apply Match_seq_cons. exists s, (c :: ext).
      split; [reflexivity|]. split; [apply Hstar|].
      apply Match_seq_cons. exists [], (c :: ext).
      split; [reflexivity|]. split; [apply Match_Opt_iff; now right|].
      rewrite andb_false_l. apply Hd.
    + exists ("/" ++ s ++ "/" ++ c :: ext). split; [reflexivity|].
      apply (Match_seq_lits "/"
               (Star not_slash :: Opt (lit "/") :: dot :: lits ext)).
      exists (s ++ "/" ++ c :: ext). split; [reflexivity|].
      apply Match_seq_cons. exists s, ("/" ++ c :: ext).
      split; [reflexivity|]. split; [apply Hstar|].
      apply Match_seq_cons. exists "/", (c :: ext).
      split; [reflexivity|]. split.
      * apply Match_Opt_iff. left. apply Match_Chr_iff.
        exists "/"%char. now split.
      * rewrite andb_false_l. apply Hd.
Qed.

Lemma star_dot_matchesPattern b ext path :
  includes "*" b = false -> includes "*" ext = false ->
  includes "/" ext = false -> plain ext = true ->
  exists v, matchesPattern path (PString ("/" ++ b ++ "/*." ++ ext)) = Some v /\
            (v = true <-> any_character_then b ext path).
Proof.
  intros Hb He Hs Hp. eexists. split.
  - apply matchesPattern_glob.
    + now apply glob_has_star.
    + now apply star_dot_regex.
    + apply star_dot_test. exists "*", "."%char. repeat split. now left.
  - apply star_dot_test.
Qed.

(** X11.  A segment that holds a [*] is copied into the expression without
    escaping, so the [.] of [*.ext] stands for any character: [/b/*.ext],
    with [b] free of wildcards and [ext] plain text without [*] and [/],
    accepts [/b/],
    some of a segment, optionally one [/], any one character on the line,
    then [ext], and nothing else; the character before [ext] need not be
    a dot. *)
Theorem dot_after_star_is_any_character :
  forall b ext path,
    includes "*" b = false -> includes "*" ext = false ->
    includes "/" ext = false -> plain ext = true ->
    (matches path ("/" ++ b ++ "/*." ++ ext) <-> any_character_then b ext path) /\
    (rejects path ("/" ++ b ++ "/*." ++ ext) <-> ~ any_character_then b ext path) /\
    (forall s c, no_slash s = true -> isLineTerminator c = false ->
       matches ("/" ++ b ++ "/" ++ s ++ c :: ext) ("/" ++ b ++ "/*." ++ ext)).
Proof.
  intros b ext path Hb He Hs Hp.
  assert (A : forall q,
             (matches q ("/" ++ b ++ "/*." ++ ext) <-> any_character_then b ext q) /\
             (rejects q ("/" ++ b ++ "/*." ++ ext) <-> ~ any_character_then b ext q)).
  { intro q. apply decided, star_dot_matchesPattern; assumption. }
  split; [apply A|]. split; [apply A|].
  intros s c Hns Hc. apply A. exists s, c. repeat split; auto.
Qed.

Lemma dot_after_star_is_any_character_witness :
  matches "/assets/app.js" "/assets/*.js" /\
  matches "/assets/appxjs" "/assets/*.js" /\
  matches "/assets/app/.js" "/assets/*.js" /\
  rejects "/assets/js" "/assets/*.css".
Proof.
  pose proof (fun path =>
    dot_after_star_is_any_character "assets" "js" path
      eq_refl eq_refl eq_refl eq_refl) as H.
  split; [|split; [|split]].
  - exact (proj2 (proj2 (H "/")) "app" "."%char eq_refl eq_refl).
  - exact (proj2 (proj2 (H "/")) "app" "x"%char eq_refl eq_refl).
  - apply (proj1 (H "/assets/app/.js")).
    exists "app", "."%char. repeat split. now right.
  - apply (proj1 (proj2 (dot_after_star_is_any_character "assets" "css"
                           "/assets/js" eq_refl eq_refl eq_refl eq_refl))).
    intros (s & c & _ & _ & [E|E]); apply (f_equal (@length ascii)) in E;
      cbn [app length] in E; rewrite ?length_app in E; cbn [length] in E;
      rewrite ?length_app in E; cbn [length] in E; lia.
Defined.

(** ** Globs that always compile, globs that never do *)

Lemma reads_app a b : reads a -> reads b -> reads (a ++ b).
Proof.
  intros Ha Hb st Ht. destruct (Ha st Ht) as (st1 & E1 & Ht1).
  destruct (Hb st1 Ht1) as (st2 & E2 & Ht2).
  exists st2. now rewrite steps_app, E1.
Qed.

Lemma reads_fixed t :
  In t [".*"%str; ".+"%str; "(?:/.*)?"%str; "/[^/]+"%str; "[^/]*/?"%str;
        "/"%str; ""%str] ->
  reads t.
Proof. intros Hin st Ht. now apply steps_fixed_toplevel. Qed.

Lemma reads_escaped l : includes "*" l = false -> reads (escapeRegex l).
Proof.
  intros Hl st Ht. rewrite (toplevel_inv st Ht).
  rewrite <- (app_nil_r (escapeRegex l)), steps_escapeRegex by assumption.
  eexists. split; [reflexivity | apply toplevel_intro].
Qed.

Lemma reads_replaced s : plain s = true -> reads (replace_char "*" "[^/]*/?" s).
Proof.
  induction s as [|c s IH]; intro Hp.
  - apply reads_fixed. cbn. tauto.
  - cbn [plain forallb] in Hp. apply andb_true_iff in Hp as [Hc Hs].
    apply negb_true_iff in Hc.
    change (replace_char "*" "[^/]*/?" (c :: s))
      with ((if Ascii.eqb c "*" then "[^/]*/?" else [c]) ++
            replace_char "*" "[^/]*/?" s).
    apply reads_app; [|now apply IH].
    destruct (Ascii.eqb c "*") eqn:E.
    + apply reads_fixed. cbn. tauto.
    + intros st Ht. rewrite (toplevel_inv st Ht). cbn [steps step p_mode].
      rewrite step_normal_plain by assumption.
      eexists. split; [reflexivity | apply toplevel_intro].
Qed.

Lemma reads_transformSegment n i seg :
  safe_segment seg = true -> reads (transformSegment n i seg).
Proof.
  intro Hsafe. unfold transformSegment.
  destruct (str_eqb seg "**").
  { destruct ((i =? 0) && (i =? n - 1));
      [|destruct (i =? 0); [|destruct (i =? n - 1)]];
      apply reads_fixed; cbn; tauto. }
  destruct (str_eqb seg "*"); [apply reads_fixed; cbn; tauto|].
  assert (Hslash : reads "/") by (apply reads_fixed; cbn; tauto).
  assert (Htail : reads "[^/]*/?") by (apply reads_fixed; cbn; tauto).
  unfold safe_segment in Hsafe.
  destruct (includes "*" seg) eqn:Estar; cbn [negb orb] in Hsafe.
  - apply andb_true_iff in Hsafe as [Hp Hsafe].
    destruct (endsWith "**" seg).
    + cbn [andb] in Hsafe. apply negb_true_iff in Hsafe.
      apply (reads_app "/"); [assumption|].
      apply reads_app; [now apply reads_escaped | assumption].
    + apply (reads_app "/"); [assumption | now apply reads_replaced].
  - assert (E : endsWith "**" seg = false).
    { destruct (endsWith "**" seg) eqn:E; [|reflexivity].
      unfold endsWith in E. apply startsWith_includes in E.
      rewrite includes_rev in E. congruence. }
    rewrite E. apply (reads_app "/"); [assumption | now apply reads_escaped].
Qed.

Lemma reads_segments n segs : forall i,
  forallb safe_segment segs = true ->
  reads (concat (mapi_from i (transformSegment n) segs)).
Proof.
  induction segs as [|seg segs IH]; intros i H.
  - apply reads_fixed. cbn. tauto.
  - cbn [forallb] in H. apply andb_true_iff in H as [Hseg Hsegs].
    cbn [mapi_from concat].
    apply reads_app; [now apply reads_transformSegment | now apply IH].
Qed.

Lemma RegExp_new_reads t : reads t -> exists r, RegExp_new ("^" ++ t ++ "$") = Some r.
Proof.
  intro Ht. unfold RegExp_new.
  change (steps p_init ("^" ++ t ++ "$"))
    with (steps (mkPstate [] (mkFrame [] [Bol]) QNone MNormal) (t ++ "$")).
  destruct (Ht _ (toplevel_intro [Bol] QNone)) as (st1 & E & Ht1).
  rewrite steps_app, E, (toplevel_inv st1 Ht1), finish_at_dollar. eauto.
Qed.

(** A glob whose segments are all safe compiles. *)
Lemma safe_glob_compiles p :
  safe_glob p = true -> exists r, globToRegex p = Some r.
Proof.
  intro H. unfold globToRegex, globToRegex_source.
  destruct (str_eqb p "/**"); [eexists; reflexivity|].
  apply RegExp_new_reads.
  pose proof (reads_segments (length (split "/" (slice_from1 p)))
                (split "/" (slice_from1 p)) 0 H) as Hr.
  unfold mapi, join_empty.
  match goal with |- reads (if ?c then _ else _) => destruct c end;
    [assumption|].
  apply (reads_app "/"); [apply reads_fixed; cbn; tauto | assumption].
Qed.

Lemma safe_pattern_decided path p :
  safe_pattern p = true -> matchesPattern path p <> None.
Proof.
  intros H E. apply matchesPattern_none in E as (s & -> & _ & _ & Hg).
  destruct (safe_glob_compiles s H) as (r & Hr). congruence.
Qed.

(** X12.  [shouldRunMiddleware] never throws for a matcher whose string
    patterns are made of safe segments only: segments without wildcard,
    whatever else they hold, and segments of plain text and [*] in which
    no [*] precedes a closing [**].  Every such glob compiles. *)
Theorem safe_patterns_never_throw :
  forall request mw,
    (forall m ps, matcher_of mw = Some m -> patterns m = Some ps ->
       forallb safe_pattern ps = true) ->
    exists v, shouldRunMiddleware request mw = Some v.
Proof.
  intros request mw H.
  destruct (shouldRunMiddleware request mw) as [v|] eqn:E; [now exists v|].
  exfalso. unfold shouldRunMiddleware in E.
  destruct (matcher_of mw) as [m|]; [|discriminate].
  destruct (methods_reject request m); [discriminate|].
  rewrite pattern_clause in E.
  destruct (patterns m) as [ps|] eqn:Hps; [|discriminate].
  apply array_some_none in E as (l1 & x & l2 & -> & _ & Hx).
  specialize (H m _ eq_refl Hps). rewrite forallb_app in H.
  apply andb_true_iff in H as [_ H]. cbn [forallb] in H.
  apply andb_true_iff in H as [H _].
  exact (safe_pattern_decided _ _ H Hx).
Qed.

Lemma safe_patterns_never_throw_witness :
  exists v,
    shouldRunMiddleware (mkRequest "/api/users" "GET")
      (mkModule (Some (mkSettings (Some
         (mkMatcher (Some [PString "/(group)/[id]/*"; PString "/api*/**"; POther])
                    None))))) = Some v.
Proof.
  apply safe_patterns_never_throw.
  intros m ps [= <-] [= <-]. reflexivity.
Defined.

Lemma transformSegment_unescaped n i pre :
  pre <> [] -> includes "*" pre = false ->
  transformSegment n i (pre ++ "*") = "/" ++ pre ++ "[^/]*/?".
Proof.
  intros Hne H. unfold transformSegment.
  destruct pre as [|c pre]; [contradiction|].
  pose proof H as H'. rewrite includes_cons in H'.
  apply orb_false_iff in H' as [Hc _]. rewrite Ascii.eqb_sym in Hc.
  assert (E1 : str_eqb ((c :: pre) ++ "*") "**" = false).
  { destruct pre; simpl; now rewrite Hc. }
  assert (E2 : str_eqb ((c :: pre) ++ "*") "*" = false)
    by (simpl; now rewrite Hc).
  assert (E3 : endsWith "**" ((c :: pre) ++ "*") = false).
  { destruct (exists_last (l := c :: pre)) as (pre' & x & E); [discriminate|].
    rewrite E, <- app_assoc in *.
    assert (Hx : Ascii.eqb "*" x = false).
    { rewrite includes_app, includes_cons in H.
      apply orb_false_iff in H as [_ H]. now apply orb_false_iff in H. }
    unfold endsWith. rewrite !rev_app_distr. cbn [rev app startsWith].
    rewrite Ascii.eqb_refl, Hx. reflexivity. }
  assert (E4 : includes "*" ((c :: pre) ++ "*") = true).
  { rewrite includes_app. cbn. apply orb_true_r. }
  now rewrite E1, E2, E3, E4, replace_char_app, replace_char_absent by assumption.
Qed.

(** A segment [a], an opening parenthesis, a wildcard: the parenthesis is
    copied as it is and never closed. *)
Lemma unclosed_group_fails a :
  plain a = true -> includes "*" a = false -> includes "/" a = false ->
  globToRegex ("/" ++ a ++ "(" ++ "*") = None.
Proof.
  intros Hp Hs Hsl. unfold globToRegex, globToRegex_source.
  assert (Hs' : includes "*" (a ++ "(") = false)
    by (rewrite includes_app, Hs; reflexivity).
  assert (E : str_eqb ("/" ++ a ++ "(" ++ "*") "/**" = false).
  { destruct a as [|c a]; [reflexivity|].
    rewrite includes_cons in Hs. apply orb_false_iff in Hs as [Hc _].
    rewrite Ascii.eqb_sym in Hc. now apply not_double_star. }
  rewrite E. change (slice_from1 ("/" ++ a ++ "(" ++ "*")) with (a ++ "(" ++ "*").
  rewrite split_no_sep by (rewrite includes_app, Hsl; reflexivity).
  unfold mapi. cbn [mapi_from length].
  rewrite (app_assoc a "(" "*").
  rewrite transformSegment_unescaped;
    [|now destruct a | assumption].
  unfold join_empty. cbn [concat]. rewrite app_nil_r, startsWith_app.
  unfold RegExp_new. cbn [app]. rewrite <- !app_assoc. cbn [app].
  change (steps p_init ("^"%char :: "/"%char :: a ++ "([^/]*/?$"))
    with (steps (mkPstate [] (mkFrame [] [lit "/"; Bol]) QAtom MNormal)
                (a ++ "([^/]*/?$")).
  rewrite <- (escapeRegex_plain a Hp) at 1.
  rewrite steps_escapeRegex by assumption.
  reflexivity.
Qed.

Lemma plain_stars k : plain (repeat "*"%char k) = true.
Proof. induction k; [reflexivity | assumption]. Qed.

Lemma stars_no_slash k : includes "/" (repeat "*"%char k) = false.
Proof. induction k; [reflexivity | assumption]. Qed.

(** Four [*] or more in a row: the second one of the copy has nothing to
    repeat. *)
Lemma stacked_stars_fail k :
  globToRegex ("/**" ++ repeat "*"%char k ++ "**") = None.
Proof.
  unfold globToRegex, globToRegex_source.
  assert (E : str_eqb ("/**" ++ repeat "*"%char k ++ "**") "/**" = false)
    by now destruct k.
  rewrite E.
  change (slice_from1 ("/**" ++ repeat "*"%char k ++ "**"))
    with (("**" ++ repeat "*"%char k) ++ "**").
  assert (Hstar : includes "/" (("**" ++ repeat "*"%char k) ++ "**") = false).
  { now rewrite !includes_app, stars_no_slash. }
  rewrite split_no_sep by assumption.
  unfold mapi. cbn [mapi_from length]. unfold transformSegment.
  assert (E1 : str_eqb (("**" ++ repeat "*"%char k) ++ "**") "**" = false)
    by now destruct k.
  assert (E2 : str_eqb (("**" ++ repeat "*"%char k) ++ "**") "*" = false)
    by reflexivity.
  assert (E3 : endsWith "**" (("**" ++ repeat "*"%char k) ++ "**") = true).
  { unfold endsWith. rewrite rev_app_distr. apply startsWith_app. }
  assert (E4 : slice_to_neg 2 (("**" ++ repeat "*"%char k) ++ "**") =
               "**" ++ repeat "*"%char k).
  { unfold slice_to_neg. rewrite length_app.
    replace (length ("**" ++ repeat "*"%char k) + length "**" - 2)
      with (length ("**" ++ repeat "*"%char k) + 0) by (simpl; lia).
    rewrite firstn_app_2. simpl firstn. apply app_nil_r. }
  rewrite E1, E2, E3, E4.
  rewrite (escapeRegex_plain ("**" ++ repeat "*"%char k)) by apply (plain_stars (2 + k)).
  reflexivity.
Qed.

(** X13.  A glob can fail to compile, and then [shouldRunMiddleware]
    throws for every path but the pattern's own text.  Two families: a
    segment of plain text [a], an opening parenthesis and a [*], where the
    parenthesis is copied unescaped and never closed; four [*] or more in
    a row, whose copy holds a [*] with nothing to repeat. *)
Theorem malformed_globs_throw :
  (forall a path,
     plain a = true -> includes "*" a = false -> includes "/" a = false ->
     path <> "/" ++ a ++ "(" ++ "*" ->
     globToRegex ("/" ++ a ++ "(" ++ "*") = None /\
     run_patterns ["/" ++ a ++ "(" ++ "*"] path = None /\
     run_patterns ["/" ++ a ++ "(" ++ "*"] ("/" ++ a ++ "(" ++ "*") = Some true) /\
  (forall k path,
     path <> "/**" ++ repeat "*"%char k ++ "**" ->
     globToRegex ("/**" ++ repeat "*"%char k ++ "**") = None /\
     run_patterns ["/**" ++ repeat "*"%char k ++ "**"] path = None /\
     run_patterns ["/**" ++ repeat "*"%char k ++ "**"]
       ("/**" ++ repeat "*"%char k ++ "**") = Some true).
Proof.
  assert (A : forall p path, includes "*" p = true -> globToRegex p = None ->
                path <> p ->
                run_patterns [p] path = None /\ run_patterns [p] p = Some true).
  { intros p path Hs Hg Hne. unfold run_patterns, shouldRunMiddleware.
    cbn [matcher_of unstable_settings matcher methods_reject methods patterns
         map length Nat.eqb array_some matchesPattern pathname].
    rewrite str_eqb_refl.
    assert (E : str_eqb p path = false) by (apply str_eqb_neq; congruence).
    now rewrite E, Hs, Hg. }
  split.
  - intros a path Hp Hs Hsl Hne.
    pose proof (unclosed_group_fails a Hp Hs Hsl) as Hg.
    split; [assumption|]. apply A; try assumption.
    apply glob_has_star. reflexivity.
  - intros k path Hne. pose proof (stacked_stars_fail k) as Hg.
    split; [assumption|]. apply A; try assumption. reflexivity.
Qed.

(* ================================================================== *)
(** ** A [*] before a closing [**] is not rewritten *)

Lemma endsWith_app p s : endsWith p (s ++ p) = true.
Proof. unfold endsWith. rewrite rev_app_distr. apply startsWith_app. Qed.

Lemma source_star_in_prefix c b :
  is_special c = false -> Ascii.eqb c "*" = false -> Ascii.eqb c "/" = false ->
  includes "*" b = false -> includes "/" b = false ->
  globToRegex_source ("/" ++ c :: "*" ++ b ++ "**") =
  "^/" ++ c :: "*" ++ escapeRegex b ++ "[^/]*/?$".
Proof.
  intros Hc Hcs Hcl Hb Hbl. unfold globToRegex_source.
  assert (E : str_eqb ("/" ++ c :: "*" ++ b ++ "**") "/**" = false)
    by (simpl; now rewrite Hcs).
  rewrite E.
  change (slice_from1 ("/" ++ c :: "*" ++ b ++ "**")) with ((c :: "*" ++ b) ++ "**").
  rewrite split_no_sep.
  2:{ rewrite includes_app. cbn [app]. rewrite !includes_cons, Hbl.
      rewrite Ascii.eqb_sym in Hcl. now rewrite Hcl. }
  unfold mapi. cbn [mapi_from length]. unfold transformSegment.
  assert (E1 : str_eqb ((c :: "*" ++ b) ++ "**") "**" = false)
    by (simpl; now rewrite Hcs).
  assert (E2 : str_eqb ((c :: "*" ++ b) ++ "**") "*" = false)
    by (simpl; now rewrite Hcs).
  assert (E4 : slice_to_neg 2 ((c :: "*" ++ b) ++ "**") = c :: "*" ++ b).
  { unfold slice_to_neg. rewrite length_app.
    replace (length (c :: "*" ++ b) + length "**" - 2)
      with (length (c :: "*" ++ b) + 0) by (simpl; lia).
    rewrite firstn_app_2. simpl firstn. apply app_nil_r. }
  rewrite E1, E2, endsWith_app, E4.
  change (escapeRegex (c :: "*" ++ b))
    with ((if is_special c then [backslash; c] else [c]) ++ "*" ++ escapeRegex b).
  rewrite Hc. unfold join_empty. cbn [concat app startsWith Ascii.eqb Bool.eqb andb].
  rewrite app_nil_r, <- !app_assoc. reflexivity.
Qed.

Lemma star_in_prefix_regex c b :
  is_special c = false -> Ascii.eqb c "*" = false -> Ascii.eqb c "/" = false ->
  includes "*" b = false -> includes "/" b = false ->
  globToRegex ("/" ++ c :: "*" ++ b ++ "**") =
  Some (seq_of (Bol :: (lits "/" ++
                        (Star (lit c) :: lits b ++ [Star not_slash; Opt (lit "/")]))
                       ++ [Eol])).
Proof.
  intros Hc Hcs Hcl Hb Hbl. unfold globToRegex, RegExp_new.
  rewrite source_star_in_prefix by assumption.
  assert (E : steps p_init ("^/" ++ c :: "*" ++ escapeRegex b ++ "[^/]*/?$") =
              steps (mkPstate [] (mkFrame [] [Star (lit c); lit "/"; Bol])
                              QQuant MNormal)
                    (escapeRegex b ++ "[^/]*/?$")).
  { change (steps p_init ("^/" ++ c :: "*" ++ escapeRegex b ++ "[^/]*/?$"))
      with (match step (mkPstate [] (mkFrame [] [lit "/"; Bol]) QAtom MNormal) c with
            | Some st' => steps st' ("*" ++ escapeRegex b ++ "[^/]*/?$")
            | None => None
            end).
    unfold step. cbn [p_mode]. rewrite step_normal_plain by assumption.
    reflexivity. }
  rewrite E, steps_escapeRegex by assumption.
  match goal with
  | |- context [steps (mkPstate [] (mkFrame [] ?sq) ?q MNormal) "[^/]*/?$"] =>
      change (steps (mkPstate [] (mkFrame [] sq) q MNormal) "[^/]*/?$")
        with (Some (mkPstate [] (mkFrame []
                      (Eol :: Opt (lit "/") :: Star not_slash :: sq)) QNone MNormal))
  end.
  unfold finish, close_frame. cbn [p_mode p_stack p_cur f_seq f_alts].
  cbn [rev app alt_of]. do 2 f_equal.
  rewrite !rev_app_distr, !rev_involutive. unfold lits. cbn [rev app map].
  rewrite <- ?app_assoc. cbn [app]. reflexivity.
Qed.

Lemma Match_Star_lit c b m post :
  Match (Star (lit c)) b m post <-> exists k, m = repeat c k.
Proof.
  unfold lit. rewrite Match_Star_Chr_iff. split.
  - intro H. exists (length m). induction m as [|x m IH]; [reflexivity|].
    cbn [forallb cset_mem] in H. apply andb_true_iff in H as [Hx Hm].
    apply Ascii.eqb_eq in Hx as ->. cbn [length repeat]. f_equal. now apply IH.
  - intros (k & ->). induction k as [|k IH]; [reflexivity|].
    cbn [repeat forallb cset_mem]. now rewrite Ascii.eqb_refl.
Qed.

Lemma star_in_prefix_test c b path :
  RegExp_test
    (seq_of (Bol :: (lits "/" ++
                     (Star (lit c) :: lits b ++ [Star not_slash; Opt (lit "/")]))
                    ++ [Eol]))
    path = true <->
  repeated_then c b path.
Proof.
  rewrite RegExp_test_anchored, Match_seq_lits. unfold repeated_then.
  cbn [is_nil andb]. split.
  - intros (m & -> & H).
    apply Match_seq_cons in H as (m1 & m2 & -> & H1 & H2).
    apply Match_Star_lit in H1 as (k & ->).
    apply Match_seq_lits in H2 as (m3 & -> & H3).
    apply Match_seq_cons in H3 as (s & m4 & -> & Hs & H4).
    apply Match_Star_Chr_iff in Hs. rewrite forallb_no_slash in Hs.
    apply Match_seq_cons in H4 as (o & m5 & -> & Ho & H5).
    apply Match_seq_nil in H5 as ->. rewrite app_nil_r.
    exists k, s. split; [assumption|].
    apply Match_Opt_iff in Ho as [Ho| ->].
    + apply Match_Chr_iff in Ho as (x & -> & Hx).
      apply Ascii.eqb_eq in Hx as ->. now right.
    + left. now rewrite app_nil_r.
  - intros (k & s & Hs & E).
    assert (A : forall o, Match (Opt (lit "/")) false o [] ->
                  exists m, "/" ++ repeat c k ++ b ++ s ++ o = "/" ++ m /\
                    Match (seq_of (Star (lit c) ::
                                   lits b ++ [Star not_slash; Opt (lit "/")]))
                          false m []).
    { intros o Ho. exists (repeat c k ++ b ++ s ++ o). split; [reflexivity|].
      apply Match_seq_cons. exists (repeat c k), (b ++ s ++ o).
      split; [reflexivity|]. split; [apply Match_Star_lit; now exists k|].
      apply Match_seq_lits. exists (s ++ o). split; [reflexivity|].
      apply Match_seq_cons. exists s, o. split; [reflexivity|]. split.
      - apply Match_Star_Chr_iff. now rewrite forallb_no_slash.
      - apply Match_seq_cons. exists o, []. rewrite app_nil_r.
        split; [reflexivity|]. split; [|constructor].
        now rewrite !andb_false_l. }
    destruct E as [-> | ->].
    + destruct (A []) as (m & Em & Hm); [apply Match_Opt_iff; now right|].
      rewrite app_nil_r in Em. now exists m.
    + destruct (A "/") as (m & Em & Hm); [|now exists m].
      apply Match_Opt_iff. left. apply Match_Chr_iff. exists "/"%char. now split.
Qed.

Lemma star_in_prefix_matchesPattern c b path :
  is_special c = false -> Ascii.eqb c "*" = false -> Ascii.eqb c "/" = false ->
  includes "*" b = false -> includes "/" b = false ->
  exists v, matchesPattern path (PString ("/" ++ c :: "*" ++ b ++ "**")) = Some v /\
            (v = true <->
             path = "/" ++ c :: "*" ++ b ++ "**" \/ repeated_then c b path).
Proof.
  intros Hc Hcs Hcl Hb Hbl.
  assert (Hg := star_in_prefix_regex c b Hc Hcs Hcl Hb Hbl).
  unfold matchesPattern.
  destruct (str_eqb ("/" ++ c :: "*" ++ b ++ "**") path) eqn:E.
  - apply str_eqb_eq in E. exists true. split; [reflexivity|].
    split; [|reflexivity]. intros _. now left.
  - apply str_eqb_neq in E.
    assert (Hs : includes "*" ("/" ++ c :: "*" ++ b ++ "**") = true).
    { cbn [app]. rewrite !includes_cons. cbn. now rewrite !orb_true_r. }
    rewrite Hs, Hg. eexists. split; [reflexivity|].
    rewrite star_in_prefix_test. split; [now right|].
    intros [H|H]; [now symmetry in H | assumption].
Qed.

(** X14.  The text before a closing [**] is escaped, and escaping leaves
    a [*] as it is: in [/c*b**], with [c] a plain character and [b] free
    of wildcards and of [/], the first [*] repeats [c].  Besides its own text, the
    pattern accepts exactly [/], any number of [c], then [b] and the rest
    of the segment, closed or not by one [/]: no other character may
    stand between [c] and [b]. *)
Theorem star_before_double_star_repeats :
  forall c b path,
    is_special c = false -> Ascii.eqb c "*" = false -> Ascii.eqb c "/" = false ->
    includes "*" b = false -> includes "/" b = false ->
    (matches path ("/" ++ c :: "*" ++ b ++ "**") <->
     path = "/" ++ c :: "*" ++ b ++ "**" \/ repeated_then c b path) /\
    (rejects path ("/" ++ c :: "*" ++ b ++ "**") <->
     ~ (path = "/" ++ c :: "*" ++ b ++ "**" \/ repeated_then c b path)) /\
    (forall k, matches ("/" ++ repeat c k ++ b) ("/" ++ c :: "*" ++ b ++ "**")).
Proof.
  intros c b path Hc Hcs Hcl Hb Hbl.
  assert (A : forall q,
    (matches q ("/" ++ c :: "*" ++ b ++ "**") <->
     q = "/" ++ c :: "*" ++ b ++ "**" \/ repeated_then c b q) /\
    (rejects q ("/" ++ c :: "*" ++ b ++ "**") <->
     ~ (q = "/" ++ c :: "*" ++ b ++ "**" \/ repeated_then c b q))).
  { intro q. apply decided, star_in_prefix_matchesPattern; assumption. }
  split; [apply A|]. split; [apply A|].
  intro k. apply A. right. exists k, []. split; [reflexivity|].
  left. now rewrite app_nil_r.
Qed.

Lemma star_before_double_star_repeats_witness :
  matches "/v-beta" "/v*-beta**" /\ matches "/vvv-beta2" "/v*-beta**" /\
  matches "/-beta" "/v*-beta**" /\ rejects "/v1-beta" "/v*-beta**".
Proof.
  pose proof (fun path =>
    star_before_double_star_repeats "v" "-beta" path
      eq_refl eq_refl eq_refl eq_refl eq_refl) as H.
  split; [|split; [|split]].
  - exact (proj2 (proj2 (H "/")) 1).
  - apply (proj1 (H "/vvv-beta2")). right. exists 3, "2". repeat split. now left.
  - exact (proj2 (proj2 (H "/")) 0).
  - apply (proj1 (proj2 (H "/v1-beta"))).
    intros [E|(k & s & _ & E)]; [discriminate|].
    destruct k as [|[|k]]; cbn [repeat app] in E; destruct E as [E|E];
      discriminate.
Defined.

(** ** [escapeRegex] *)

Lemma escaped_regex s : includes "*" s = false ->
  RegExp_new ("^" ++ escapeRegex s ++ "$") = Some (seq_of (Bol :: lits s ++ [Eol])).
Proof.
  intro H. unfold RegExp_new.
  change (steps p_init ("^" ++ escapeRegex s ++ "$"))
    with (steps (mkPstate [] (mkFrame [] [Bol]) QNone MNormal)
                (escapeRegex s ++ "$")).
  rewrite steps_escapeRegex, finish_at_dollar by assumption.
  now rewrite rev_app_distr, rev_involutive.
Qed.

Lemma escapeRegex_injective a : forall b,
  escapeRegex a = escapeRegex b -> a = b.
Proof.
  assert (Hb : is_special backslash = true) by reflexivity.
  induction a as [|x a IH]; intros [|y b] E.
  - reflexivity.
  - change (escapeRegex (y :: b))
      with ((if is_special y then [backslash; y] else [y]) ++ escapeRegex b) in E.
    destruct (is_special y); discriminate.
  - change (escapeRegex (x :: a))
      with ((if is_special x then [backslash; x] else [x]) ++ escapeRegex a) in E.
    destruct (is_special x); discriminate.
  - change (escapeRegex (x :: a))
      with ((if is_special x then [backslash; x] else [x]) ++ escapeRegex a) in E.
    change (escapeRegex (y :: b))
      with ((if is_special y then [backslash; y] else [y]) ++ escapeRegex b) in E.
    destruct (is_special x) eqn:Ex, (is_special y) eqn:Ey; cbn [app] in E.
    + injection E as -> E. f_equal. now apply IH.
    + injection E as <- _. congruence.
    + injection E as -> _. congruence.
    + injection E as -> E. f_equal. now apply IH.
Qed.

(** X15.  [escapeRegex] makes a text without [*] stand for itself: the
    escaped text, between [^] and [$], compiles, and the expression accepts
    that text and no other.  No two texts have the same escaped form. *)
Theorem escapeRegex_round_trip :
  forall s, includes "*" s = false ->
    (exists r, RegExp_new ("^" ++ escapeRegex s ++ "$") = Some r /\
               forall t, RegExp_test r t = true <-> t = s) /\
    (forall s', escapeRegex s' = escapeRegex s -> s' = s).
Proof.
  intros s H.
  assert (A : forall t, RegExp_test (seq_of (Bol :: lits s ++ [Eol])) t = true <->
                        t = s).
  { intro t. rewrite RegExp_test_anchored.
    rewrite <- (app_nil_r (lits s)), Match_seq_lits. split.
    - intros (m & -> & Hm). apply Match_seq_nil in Hm as ->. apply app_nil_r.
    - intros ->. exists []. rewrite app_nil_r. split; [reflexivity | constructor]. }
  split.
  - exists (seq_of (Bol :: lits s ++ [Eol])). split; [now apply escaped_regex | exact A].
  - intros s' E. now apply escapeRegex_injective.
Qed.

Lemma escapeRegex_round_trip_witness :
  exists r, RegExp_new ("^" ++ escapeRegex "/a.b/(c)/[d]?x=$1" ++ "$") = Some r /\
            RegExp_test r "/a.b/(c)/[d]?x=$1" = true /\
            RegExp_test r "/aXb/(c)/[d]?x=$1" = false.
Proof.
  destruct (escapeRegex_round_trip "/a.b/(c)/[d]?x=$1" eq_refl)
    as [(r & Hr & Ht) _].
  exists r. split; [exact Hr|]. split.
  - now apply Ht.
  - destruct (RegExp_test r "/aXb/(c)/[d]?x=$1") eqn:E; [|reflexivity].
    apply Ht in E. discriminate.
Defined.

(* ================================================================== *)
(** ** The earlier compiler *)

Lemma replace_all_skip c needle by_ x : forall t,
  includes c x = false ->
  replace_all (c :: needle) by_ (x ++ t) = x ++ replace_all (c :: needle) by_ t.
Proof.
  unfold replace_all. induction x as [|a x IH]; intros t H; [reflexivity|].
  rewrite includes_cons in H. apply orb_false_iff in H as [Ha Hx].
  cbn [app replace_all_from startsWith]. rewrite Ha. cbn [andb].
  now rewrite IH.
Qed.

Lemma replace_all_absent c needle by_ x :
  includes c x = false -> replace_all (c :: needle) by_ x = x.
Proof.
  intro H. rewrite <- (app_nil_r x) at 1.
  rewrite replace_all_skip by assumption. apply app_nil_r.
Qed.

Lemma includes_escapeRegex c s :
  is_special c = false -> includes c (escapeRegex s) = includes c s.
Proof.
  intro Hc. assert (Hb : Ascii.eqb c backslash = false).
  { destruct (Ascii.eqb c backslash) eqn:E; [|reflexivity].
    apply Ascii.eqb_eq in E. subst c. discriminate. }
  induction s as [|x s IH]; [reflexivity|].
  change (escapeRegex (x :: s))
    with ((if is_special x then [backslash; x] else [x]) ++ escapeRegex s).
  rewrite includes_app, IH, includes_cons.
  destruct (is_special x); cbn [includes existsb]; rewrite ?Hb; cbn [orb];
    now rewrite orb_false_r.
Qed.

Lemma escapeRegex_app a b : escapeRegex (a ++ b) = escapeRegex a ++ escapeRegex b.
Proof. apply flat_map_app. Qed.

(** The three rewritings of the earlier compiler leave escaped literal
    text without [*] and [_] as it is. *)
Lemma legacy_rewrite_literal b t :
  includes "*" b = false -> includes "_" b = false ->
  replace_all Legacy.DOUBLE_STAR ".*"
    (replace_char "*" "[^/]*"
       (replace_all "**" Legacy.DOUBLE_STAR (escapeRegex ("/" ++ b ++ t)))) =
  "/" ++ escapeRegex b ++
  replace_all Legacy.DOUBLE_STAR ".*"
    (replace_char "*" "[^/]*"
       (replace_all "**" Legacy.DOUBLE_STAR (escapeRegex t))).
Proof.
  intros Hs Hu. rewrite (app_assoc "/" b t), escapeRegex_app.
  assert (Hs' : includes "*" (escapeRegex ("/" ++ b)) = false)
    by (rewrite includes_escapeRegex by reflexivity; exact Hs).
  assert (Hu' : includes "_" (escapeRegex ("/" ++ b)) = false)
    by (rewrite includes_escapeRegex by reflexivity; exact Hu).
  rewrite (replace_all_skip "*" "*") by assumption.
  rewrite replace_char_app, (replace_char_absent "*") by assumption.
  unfold Legacy.DOUBLE_STAR at 1.
  rewrite (replace_all_skip "_" "__DOUBLE_STAR___") by assumption.
  reflexivity.
Qed.

Lemma legacy_matchesPattern_glob path p r :
  includes "*" p = true -> Legacy.globToRegex p = Some r ->
  RegExp_test r p = true ->
  Legacy.matchesPattern path (PString p) = Some (RegExp_test r path).
Proof.
  intros Hstar Hre Hself. unfold Legacy.matchesPattern.
  destruct (str_eqb p path) eqn:E.
  - apply str_eqb_eq in E as <-. now rewrite Hself.
  - now rewrite Hstar, Hre.
Qed.

Lemma legacy_decided path p (P : Prop) :
  (exists v, Legacy.matchesPattern path (PString p) = Some v /\ (v = true <-> P)) ->
  (legacy_matches path p <-> P) /\ (legacy_rejects path p <-> ~ P).
Proof.
  intros (v & E & HP). unfold legacy_matches, legacy_rejects. rewrite E.
  split; split.
  - intro H. injection H as H. now apply HP.
  - intro H. apply HP in H. now subst.
  - intros H HP'. apply HP in HP'. congruence.
  - intro H. destruct v; [|reflexivity]. exfalso. apply H. now apply HP.
Qed.

(** *** A trailing [/*] *)

Lemma legacy_source_trailing_star b :
  includes "*" b = false -> includes "_" b = false ->
  Legacy.globToRegex_source ("/" ++ b ++ "/*") =
  "^/" ++ escapeRegex b ++ "(?:/[^/]*)?$".
Proof.
  intros Hs Hu. unfold Legacy.globToRegex_source.
  rewrite legacy_rewrite_literal by assumption.
  change (replace_all Legacy.DOUBLE_STAR ".*"
            (replace_char "*" "[^/]*"
               (replace_all "**" Legacy.DOUBLE_STAR (escapeRegex "/*"))))
    with "/[^/]*"%str.
  rewrite (app_assoc "/" b "/*"), endsWith_app.
  assert (E : slice_to_neg 6 ("/" ++ escapeRegex b ++ "/[^/]*") =
              "/" ++ escapeRegex b).
  { rewrite (app_assoc "/" (escapeRegex b)).
    unfold slice_to_neg. rewrite length_app.
    replace (length ("/" ++ escapeRegex b) + length "/[^/]*" - 6)
      with (length ("/" ++ escapeRegex b) + 0) by (simpl; lia).
    rewrite firstn_app_2. simpl firstn. apply app_nil_r. }
  rewrite E. cbn [app]. rewrite <- !app_assoc. reflexivity.
Qed.

Lemma legacy_trailing_star_regex b :
  includes "*" b = false -> includes "_" b = false ->
  Legacy.globToRegex ("/" ++ b ++ "/*") =
  Some (seq_of (Bol :: (lits ("/" ++ b) ++
                        [Opt (seq_of [lit "/"; Star not_slash])]) ++ [Eol])).
Proof.
  intros Hs Hu. unfold Legacy.globToRegex.
  rewrite legacy_source_trailing_star by assumption.
  now apply RegExp_new_anchored with (q := QNone).
Qed.

Lemma legacy_trailing_star_test b path :
  RegExp_test
    (seq_of (Bol :: (lits ("/" ++ b) ++
                     [Opt (seq_of [lit "/"; Star not_slash])]) ++ [Eol]))
    path = true <->
  base_or_one_segment b path.
Proof.
  rewrite RegExp_test_anchored_literal. unfold base_or_one_segment. split.
  - intros (m & -> & H).
    apply Match_seq_cons in H as (m1 & m2 & -> & H1 & H2).
    apply Match_seq_nil in H2 as ->. rewrite app_nil_r.
    apply Match_Opt_iff in H1 as [H1| ->].
    + right. apply (Match_seq_lits "/" [Star not_slash]) in H1 as (t & -> & H1).
      apply Match_seq_cons in H1 as (m3 & m4 & -> & H3 & H4).
      apply Match_seq_nil in H4 as ->. rewrite app_nil_r.
      apply Match_Star_Chr_iff in H3. rewrite forallb_no_slash in H3.
      now exists m3.
    + left. now rewrite app_nil_r.
  - intros [-> | (t & Ht & ->)].
    + exists []. rewrite app_nil_r. split; [reflexivity|].
      apply Match_seq_cons. exists [], []. split; [reflexivity|].
      split; [|constructor]. apply Match_Opt_iff. now right.
    + exists ("/" ++ t). split; [reflexivity|].
      apply Match_seq_cons. exists ("/" ++ t), []. rewrite app_nil_r.
      split; [reflexivity|]. split; [|constructor].
      apply Match_Opt_iff. left.
      apply (Match_seq_lits "/" [Star not_slash]). exists t.
      split; [reflexivity|].
      apply Match_seq_cons. exists t, []. rewrite app_nil_r.
      split; [reflexivity|]. split; [|constructor].
      apply Match_Star_Chr_iff. now rewrite forallb_no_slash.
Qed.

Lemma legacy_trailing_star_matchesPattern b path :
  includes "*" b = false -> includes "_" b = false ->
  exists v, Legacy.matchesPattern path (PString ("/" ++ b ++ "/*")) = Some v /\
            (v = true <-> base_or_one_segment b path).
Proof.
  intros Hs Hu. eexists. split.
  - apply legacy_matchesPattern_glob.
    + now apply glob_has_star.
    + now apply legacy_trailing_star_regex.
    + apply legacy_trailing_star_test. right. now exists "*".
  - apply legacy_trailing_star_test.
Qed.

(** X16.  In the earlier compiler a trailing [/*] is optional: [/b/*],
    with [b] free of [*] and of [_], accepts the base path [/b] and [/b/]
    followed by one segment, empty or not, and refuses every other path.
    It accepts every path the current compiler accepts for the same
    pattern, and the base path besides. *)
Theorem legacy_trailing_star_is_optional :
  forall b path,
    includes "*" b = false -> includes "_" b = false ->
    (legacy_matches path ("/" ++ b ++ "/*") <-> base_or_one_segment b path) /\
    (legacy_rejects path ("/" ++ b ++ "/*") <-> ~ base_or_one_segment b path) /\
    legacy_matches ("/" ++ b) ("/" ++ b ++ "/*") /\
    legacy_matches ("/" ++ b ++ "/") ("/" ++ b ++ "/*") /\
    (matches path ("/" ++ b ++ "/*") -> legacy_matches path ("/" ++ b ++ "/*")).
Proof.
  intros b path Hs Hu.
  assert (A : forall q,
             (legacy_matches q ("/" ++ b ++ "/*") <-> base_or_one_segment b q) /\
             (legacy_rejects q ("/" ++ b ++ "/*") <-> ~ base_or_one_segment b q)).
  { intro q. apply legacy_decided, legacy_trailing_star_matchesPattern; assumption. }
  split; [apply A|]. split; [apply A|]. split; [|split].
  - apply A. now left.
  - apply A. right. now exists [].
  - intro H. apply A.
    destruct (trailing_star_matchesPattern b path Hs) as (v & E & Hv).
    unfold matches in H. rewrite E in H. injection H as ->.
    destruct (proj1 Hv eq_refl) as (seg & _ & Hseg & ->).
    right. now exists seg.
Qed.

Lemma legacy_trailing_star_is_optional_witness :
  legacy_matches "/api" "/api/*" /\ legacy_matches "/api/users" "/api/*" /\
  legacy_rejects "/api/users/1" "/api/*".
Proof.
  pose proof (fun path =>
    legacy_trailing_star_is_optional "api" path eq_refl eq_refl) as H.
  split; [|split].
  - apply (proj1 (H "/api")). now left.
  - apply (proj1 (H "/api/users")). right. now exists "users".
  - apply (proj1 (proj2 (H "/api/users/1"))).
    intros [E|(seg & Hseg & E)]; [discriminate|].
    injection E as <-. discriminate.
Defined.

(** *** A [**], a [*] inside a segment *)

Lemma legacy_source_double_star b :
  includes "*" b = false -> includes "_" b = false ->
  Legacy.globToRegex_source ("/" ++ b ++ "**") = "^/" ++ escapeRegex b ++ ".*$".
Proof.
  intros Hs Hu. unfold Legacy.globToRegex_source.
  rewrite legacy_rewrite_literal by assumption.
  change (replace_all Legacy.DOUBLE_STAR ".*"
            (replace_char "*" "[^/]*"
               (replace_all "**" Legacy.DOUBLE_STAR (escapeRegex "**"))))
    with ".*"%str.
  assert (E : endsWith "/*" ("/" ++ b ++ "**") = false).
  { unfold endsWith. rewrite (app_assoc "/" b "**"), rev_app_distr. reflexivity. }
  rewrite E. cbn [app]. rewrite <- !app_assoc. reflexivity.
Qed.

Lemma legacy_double_star_regex b :
  includes "*" b = false -> includes "_" b = false ->
  Legacy.globToRegex ("/" ++ b ++ "**") =
  Some (seq_of (Bol :: (lits ("/" ++ b) ++ [Star dot]) ++ [Eol])).
Proof.
  intros Hs Hu. unfold Legacy.globToRegex.
  rewrite legacy_source_double_star by assumption.
  now apply RegExp_new_anchored with (q := QNone).
Qed.

Lemma legacy_double_star_test b path :
  RegExp_test (seq_of (Bol :: (lits ("/" ++ b) ++ [Star dot]) ++ [Eol])) path = true <->
  continues b path.
Proof.
  rewrite RegExp_test_anchored_literal. unfold continues. split.
  - intros (m & -> & H).
    apply Match_seq_cons in H as (m1 & m2 & -> & H1 & H2).
    apply Match_seq_nil in H2 as ->. rewrite app_nil_r.
    apply Match_Star_Chr_iff in H1. now exists m1.
  - intros (t & Ht & ->). exists t. split; [reflexivity|].
    apply Match_seq_cons. exists t, []. rewrite app_nil_r.
    split; [reflexivity|]. split; [|constructor].
    now apply Match_Star_Chr_iff.
Qed.

Lemma legacy_double_star_matchesPattern b path :
  includes "*" b = false -> includes "_" b = false ->
  exists v, Legacy.matchesPattern path (PString ("/" ++ b ++ "**")) = Some v /\
            (v = true <-> continues b path).
Proof.
  intros Hs Hu. eexists. split.
  - apply legacy_matchesPattern_glob.
    + now apply glob_has_star.
    + now apply legacy_double_star_regex.
    + apply legacy_double_star_test. now exists "**".
  - apply legacy_double_star_test.
Qed.

(** X17.  In the earlier compiler [**] stands for any text, [/] included,
    wherever it is written: a pattern [/b**], with [b] free of [*] and of
    [_], accepts exactly [/b] followed by anything on one line.  So
    [/b**] reaches the segments beneath [/b...], and [/b/**] (its [b]
    ending in [/]) needs the [/]: it refuses the base path [/b], which the
    current compiler accepts. *)
Theorem legacy_double_star_crosses_segments :
  forall b path,
    includes "*" b = false -> includes "_" b = false ->
    (legacy_matches path ("/" ++ b ++ "**") <-> continues b path) /\
    (legacy_rejects path ("/" ++ b ++ "**") <-> ~ continues b path) /\
    (forall s t, no_newline s = true -> no_newline t = true ->
       legacy_matches ("/" ++ b ++ s ++ "/" ++ t) ("/" ++ b ++ "**")) /\
    legacy_rejects ("/" ++ b) ("/" ++ b ++ "/**") /\
    matches ("/" ++ b) ("/" ++ b ++ "/**").
Proof.
  intros b path Hs Hu.
  assert (A : forall b' q, includes "*" b' = false -> includes "_" b' = false ->
             (legacy_matches q ("/" ++ b' ++ "**") <-> continues b' q) /\
             (legacy_rejects q ("/" ++ b' ++ "**") <-> ~ continues b' q)).
  { intros b' q H1 H2.
    apply legacy_decided, legacy_double_star_matchesPattern; assumption. }
  split; [now apply A|]. split; [now apply A|]. split; [|split].
  - intros s t Hns Hnt. apply A; try assumption. exists (s ++ "/" ++ t). split.
    + unfold no_newline in *. rewrite forallb_app, Hns. cbn [app forallb].
      now rewrite Hnt.
    + reflexivity.
  - change ("/" ++ b ++ "/**") with ("/" ++ b ++ "/" ++ "**").
    rewrite (app_assoc b "/" "**"). apply A.
    + now rewrite includes_app, Hs.
    + now rewrite includes_app, Hu.
    + intros (t & _ & E). injection E as E. rewrite <- app_assoc in E.
      apply app_eq_self_nil in E. discriminate.
  - destruct (trailing_double_star_matchesPattern b ("/" ++ b) Hs) as (v & E & Hv).
    unfold matches. rewrite E. f_equal. apply Hv. now left.
Qed.

Lemma legacy_double_star_crosses_segments_witness :
  legacy_matches "/api/users" "/api**" /\ legacy_matches "/apitest/users/1" "/api**" /\
  legacy_rejects "/api" "/api/**" /\ matches "/api" "/api/**" /\
  rejects "/api/users" "/api**".
Proof.
  pose proof (legacy_double_star_crosses_segments "api" "/" eq_refl eq_refl)
    as (_ & _ & H3 & H4 & H5).
  split; [|split; [|split; [|split]]].
  - exact (H3 "" "users" eq_refl eq_refl).
  - exact (H3 "test" "users/1" eq_refl eq_refl).
  - exact H4.
  - exact H5.
  - reflexivity.
Defined.

Lemma last_not_star c : c <> [] -> includes "*" c = false ->
  forall s, endsWith "/*" (s ++ c) = false.
Proof.
  intros Hne Hs s.
  destruct (exists_last Hne) as (c' & z & ->).
  rewrite includes_app, includes_cons in Hs.
  apply orb_false_iff in Hs as [_ Hz]. apply orb_false_iff in Hz as [Hz _].
  unfold endsWith. rewrite app_assoc, rev_app_distr.
  cbn [rev app startsWith]. now rewrite Hz.
Qed.

Lemma legacy_source_interior_star a b :
  includes "*" a = false -> includes "_" a = false ->
  includes "*" b = false -> includes "_" b = false -> b <> [] ->
  Legacy.globToRegex_source ("/" ++ a ++ "*" ++ b) =
  "^/" ++ escapeRegex a ++ "[^/]*" ++ escapeRegex b ++ "$".
Proof.
  intros Has Hau Hbs Hbu Hne. unfold Legacy.globToRegex_source.
  rewrite legacy_rewrite_literal by assumption.
  assert (Hbs' : includes "*" (escapeRegex b) = false)
    by (rewrite includes_escapeRegex by reflexivity; exact Hbs).
  assert (Hbu' : includes "_" (escapeRegex b) = false)
    by (rewrite includes_escapeRegex by reflexivity; exact Hbu).
  assert (E1 : replace_all "**" Legacy.DOUBLE_STAR (escapeRegex ("*" ++ b)) =
               "*" ++ escapeRegex b).
  { rewrite escapeRegex_app. change (escapeRegex "*") with "*"%str.
    unfold replace_all. cbn [app replace_all_from startsWith].
    rewrite Ascii.eqb_refl. cbn [andb].
    assert (E : match escapeRegex b with
                | [] => false
                | y :: s' => Ascii.eqb "*" y && true
                end = false).
    { destruct (escapeRegex b) as [|y s']; [reflexivity|].
      rewrite includes_cons in Hbs'. apply orb_false_iff in Hbs' as [Hy _].
      now rewrite Hy. }
    rewrite E. f_equal. now apply replace_all_absent. }
  rewrite E1, replace_char_app, (replace_char_absent "*" _ (escapeRegex b))
    by assumption.
  change (replace_char "*" "[^/]*" "*") with "[^/]*"%str.
  unfold Legacy.DOUBLE_STAR.
  rewrite (replace_all_skip "_" "__DOUBLE_STAR___" ".*" "[^/]*") by reflexivity.
  rewrite replace_all_absent by assumption.
  rewrite (app_assoc "/" a ("*" ++ b)), (app_assoc ("/" ++ a) "*" b).
  rewrite last_not_star by assumption.
  cbn [app]. rewrite <- !app_assoc. reflexivity.
Qed.

Lemma legacy_interior_star_regex a b :
  includes "*" a = false -> includes "_" a = false ->
  includes "*" b = false -> includes "_" b = false -> b <> [] ->
  Legacy.globToRegex ("/" ++ a ++ "*" ++ b) =
  Some (seq_of (Bol :: (lits ("/" ++ a) ++ (Star not_slash :: lits b)) ++ [Eol])).
Proof.
  intros Has Hau Hbs Hbu Hne. unfold Legacy.globToRegex.
  rewrite legacy_source_interior_star by assumption.
  apply RegExp_new_anchored with (q := QNone); [assumption|]. intro sq.
  change (steps (mkPstate [] (mkFrame [] sq) QAtom MNormal)
                ("[^/]*" ++ escapeRegex b ++ "$"))
    with (steps (mkPstate [] (mkFrame [] (Star not_slash :: sq)) QQuant MNormal)
                (escapeRegex b ++ "$")).
  rewrite steps_escapeRegex by assumption.
  cbn [steps step p_mode].
  cbn [step_normal Ascii.eqb Bool.eqb push_term p_mode p_stack p_cur f_seq f_alts].
  cbn [rev]. rewrite <- !app_assoc. reflexivity.
Qed.

Lemma legacy_interior_star_test a b path :
  RegExp_test
    (seq_of (Bol :: (lits ("/" ++ a) ++ (Star not_slash :: lits b)) ++ [Eol]))
    path = true <->
  within_segment a b path.
Proof.
  rewrite RegExp_test_anchored_literal. unfold within_segment. split.
  - intros (m & -> & H).
    apply Match_seq_cons in H as (s & m2 & -> & H1 & H2).
    apply Match_Star_Chr_iff in H1. rewrite forallb_no_slash in H1.
    rewrite <- (app_nil_r (lits b)) in H2.
    apply Match_seq_lits in H2 as (m' & -> & H2).
    apply Match_seq_nil in H2 as ->. rewrite app_nil_r. now exists s.
  - intros (s & Hs & ->). exists (s ++ b). split; [reflexivity|].
    apply Match_seq_cons. exists s, b. split; [reflexivity|]. split.
    + apply Match_Star_Chr_iff. now rewrite forallb_no_slash.
    + rewrite <- (app_nil_r (lits b)). apply Match_seq_lits.
      exists []. rewrite app_nil_r. split; [reflexivity | constructor].
Qed.

Lemma legacy_interior_star_matchesPattern a b path :
  includes "*" a = false -> includes "_" a = false ->
  includes "*" b = false -> includes "_" b = false -> b <> [] ->
  exists v, Legacy.matchesPattern path (PString ("/" ++ a ++ "*" ++ b)) = Some v /\
            (v = true <-> within_segment a b path).
Proof.
  intros Has Hau Hbs Hbu Hne. eexists. split.
  - apply legacy_matchesPattern_glob.
    + now apply glob_has_star.
    + now apply legacy_interior_star_regex.
    + apply legacy_interior_star_test. now exists "*".
  - apply legacy_interior_star_test.
Qed.

(** X18.  In the earlier compiler a [*] followed by literal text stays
    within its segment, and the literal text around it is escaped whatever
    it holds: [/a*b], with [a] and [b] free of [*] and of [_] and [b] not
    empty, accepts exactly [/a], some text without [/], then [b].  It
    never accepts [/a], some of the segment, a [/] and then [b], which the
    current compiler does when [a] and [b] are plain text of one
    segment. *)
Theorem legacy_star_stays_in_its_segment :
  forall a b path,
    includes "*" a = false -> includes "_" a = false ->
    includes "*" b = false -> includes "_" b = false -> b <> [] ->
    (legacy_matches path ("/" ++ a ++ "*" ++ b) <-> within_segment a b path) /\
    (legacy_rejects path ("/" ++ a ++ "*" ++ b) <-> ~ within_segment a b path) /\
    (forall s, no_slash s = true ->
       legacy_rejects ("/" ++ a ++ s ++ "/" ++ b) ("/" ++ a ++ "*" ++ b)) /\
    (plain a = true -> plain b = true ->
     includes "/" a = false -> includes "/" b = false ->
     forall s, no_slash s = true ->
       matches ("/" ++ a ++ s ++ "/" ++ b) ("/" ++ a ++ "*" ++ b)).
Proof.
  intros a b path Has Hau Hbs Hbu Hne.
  assert (A : forall q,
             (legacy_matches q ("/" ++ a ++ "*" ++ b) <-> within_segment a b q) /\
             (legacy_rejects q ("/" ++ a ++ "*" ++ b) <-> ~ within_segment a b q)).
  { intro q. apply legacy_decided, legacy_interior_star_matchesPattern; assumption. }
  split; [apply A|]. split; [apply A|]. split.
  - intros s Hs. apply A. intros (s' & Hs' & E).
    injection E as E. apply app_inv_head in E.
    assert (E' : (s ++ "/") ++ b = s' ++ b) by (rewrite <- app_assoc; exact E).
    apply app_inv_tail in E'. subst s'.
    unfold no_slash in Hs'. rewrite includes_app in Hs'.
    cbn in Hs'. rewrite orb_true_r in Hs'. discriminate.
  - intros Hpa Hpb Hsa Hsb s Hs.
    destruct (interior_star_matchesPattern a b ("/" ++ a ++ s ++ "/" ++ b)
                Has Hbs Hne Hsa Hsb Hpa Hpb) as (v & E & Hv).
    unfold matches. rewrite E. f_equal. apply Hv. exists s. split; [assumption|].
    now right.
Qed.

Lemma legacy_star_stays_in_its_segment_witness :
  legacy_matches "/a.b/v1.json" "/a.b/*.json" /\
  legacy_rejects "/a.b/v1xjson" "/a.b/*.json" /\
  legacy_rejects "/a/b" "/a*b".
Proof.
  split; [|split].
  - apply (proj1 (legacy_star_stays_in_its_segment "a.b/" ".json" "/a.b/v1.json"
                    eq_refl eq_refl eq_refl eq_refl ltac:(discriminate))).
    now exists "v1".
  - apply (proj1 (proj2 (legacy_star_stays_in_its_segment "a.b/" ".json"
                           "/a.b/v1xjson"
                           eq_refl eq_refl eq_refl eq_refl ltac:(discriminate)))).
    intros (s & _ & E). apply (f_equal (@rev ascii)) in E.
    change ("/" ++ "a.b/" ++ s ++ ".json") with ("/a.b/" ++ s ++ ".json") in E.
    rewrite !rev_app_distr in E. discriminate.
  - exact (proj1 (proj2 (proj2 (legacy_star_stays_in_its_segment "a" "b" "/"
                           eq_refl eq_refl eq_refl eq_refl ltac:(discriminate))))
             "" eq_refl).
Defined.


(* ================================================================== *)
(** * The repository's tests, run on the model *)

(** Leading, interior and trailing [*]. *)
Example test_leading_wildcard :
  table_ok "/*/api"
    [("/users/api", true); ("/admin/api", true); ("/v1/api", true);
     ("/api", false); ("/users/admin/api", false); ("/a/b/api", false)] = true.
Proof. reflexivity. Qed.

Example test_interior_wildcard :
  table_ok "/api/*/users"
    [("/api/v1/users", true); ("/api/v2/users", true);
     ("/api/admin/users", true); ("/api/users", false);
     ("/api/v1/admin/users", false); ("/api/a/b/users", false)] = true.
Proof. reflexivity. Qed.

Example test_trailing_slash_star :
  table_ok "/api/*"
    [("/api/users", true); ("/api", false); ("/api/", false);
     ("/api/v1/users", false); ("/api/v1/admin/users", false)] = true.
Proof. reflexivity. Qed.

Example test_trailing_star :
  table_ok "/api*"
    [("/api", true); ("/api/", true); ("/api123", true); ("/apitest", true);
     ("/apis", true); ("/api/users", false); ("/api/v1/users", false);
     ("/api/v1/admin/users", false)] = true.
Proof. reflexivity. Qed.

(** Deep wildcards. *)
Example test_double_star_only :
  table_ok "/**" [("/", true); ("/api/users/123/profile", true)] = true.
Proof. reflexivity. Qed.

Example test_leading_double_star :
  table_ok "/**/api"
    [("/api", false); ("/api/", false); ("/users/api", true);
     ("/admin/api", true); ("/v1/api", true); ("/users/admin/api", true);
     ("/a/b/api", true); ("/a/b/c/d/api", true); ("/api/settings", false);
     ("/admin/api/data", false); ("/apis", false); ("/api123", false);
     ("/apitest", false)] = true.
Proof. reflexivity. Qed.

Example test_interior_double_star :
  table_ok "/api/**/users"
    [("/api/users", true); ("/api/v1/users", true);
     ("/api/v1/admin/users", true); ("/api/a/b/c/d/users", true);
     ("/api/users/settings", false); ("/api/v1/users/data", false)] = true.
Proof. reflexivity. Qed.

Example test_trailing_double_star :
  table_ok "/api/**"
    [("/api/", true); ("/api/users", true); ("/api/v1/users", true);
     ("/api/v1/admin/users", true); ("/api/a/b/c/d/users", true);
     ("/api/users/settings", true); ("/api/v1/users/data", true);
     ("/api", true); ("/v1/api/users/data", false)] = true.
Proof. reflexivity. Qed.

Example test_prefix_double_star :
  table_ok "/api**"
    [("/api", true); ("/api/", true); ("/api123", true); ("/apitest", true);
     ("/apis", true); ("/api/users", false); ("/api/v1/users", false);
     ("/api/v1/admin/users", false); ("/api/a/b/c/d/users", false);
     ("/api/users/settings", false); ("/api/v1/users/data", false)] = true.
Proof. reflexivity. Qed.

(** Patterns with several wildcards. *)
Example test_star_then_double_star :
  table_ok "/*/api/**"
    [("/v1/api", true); ("/v1/api/users", true); ("/v1/api/users/123", true);
     ("/admin/api/settings/global", true); ("/api", false);
     ("/a/b/api", false)] = true.
Proof. reflexivity. Qed.

Example test_double_star_then_star :
  table_ok "/**/api/*"
    [("/api/users", false); ("/api/data", false); ("/api/settings", false);
     ("/admin/api/data", true); ("/v1/api/users", true);
     ("/admin/v1/api/users", true); ("/api", false); ("/api/", false);
     ("/v1/api", false); ("/api/users/123", false);
     ("/api/v1/users", false)] = true.
Proof. reflexivity. Qed.

Example test_star_data_double_star :
  table_ok "/api/*/data/**"
    [("/api/user/data", true); ("/api/user/data/profile", true);
     ("/api/admin/data/settings/global", true); ("/api/data", false);
     ("/api/user/admin/data", false); ("/api/user/settings", false)] = true.
Proof. reflexivity. Qed.

Example test_two_single_stars :
  table_ok "/*/api/*/users"
    [("/v1/api/admin/users", true); ("/admin/api/v2/users", true);
     ("/api/v1/users", false); ("/v1/api/users", false);
     ("/a/b/api/v1/users", false)] = true.
Proof. reflexivity. Qed.

(** Exact patterns and trailing slashes. *)
Example test_exact_patterns :
  run_patterns ["/"%str] "/" = Some true /\
  run_patterns ["/api"%str] "/api" = Some true /\
  run_patterns ["/api"%str] "/admin" = Some false /\
  run_patterns ["/api"%str] "/api/users" = Some false /\
  run_patterns ["/"%str; "/api"%str; "/admin"%str] "/admin" = Some true /\
  run_patterns ["/"%str; "/api"%str; "/admin"%str] "/settings" = Some false /\
  run_patterns [] "/" = Some false /\
  run_patterns ["/api/"%str] "/api/" = Some true /\
  run_patterns ["/api"%str] "/api/" = Some false.
Proof. repeat split. Qed.

(** Methods alone, and methods with patterns. *)
Example test_methods :
  let mw ms ps := mkModule (Some (mkSettings (Some (mkMatcher ps ms)))) in
  shouldRunMiddleware (mkRequest "/" "GET") (mw (Some ["GET"%str]) None) = Some true /\
  shouldRunMiddleware (mkRequest "/" "POST") (mw (Some ["GET"%str]) None) = Some false /\
  shouldRunMiddleware (mkRequest "/" "DELETE")
    (mw (Some ["GET"%str; "POST"%str; "PUT"%str]) None) = Some false /\
  shouldRunMiddleware (mkRequest "/" "GET") (mw (Some []) None) = Some false /\
  shouldRunMiddleware (mkRequest "/api" "GET")
    (mw (Some ["get"%str]) (Some [PString "/api"])) = Some true /\
  shouldRunMiddleware (mkRequest "/api" "POST")
    (mw (Some ["POST"%str]) (Some [PString "/api"])) = Some true /\
  shouldRunMiddleware (mkRequest "/" "POST")
    (mw (Some ["POST"%str]) (Some [PString "/api"])) = Some false /\
  shouldRunMiddleware (mkRequest "/api" "GET")
    (mw (Some ["POST"%str]) (Some [PString "/api"])) = Some false /\
  shouldRunMiddleware (mkRequest "/api/users" "DELETE")
    (mw (Some ["POST"%str; "PUT"%str; "DELETE"%str]) (Some [PString "/api/*"])) =
  Some true.
Proof. repeat split. Qed.

(** A regular expression given as a pattern: [/^\/auth\/(login|logout)$/]. *)
Example test_regex_pattern :
  exists re,
    RegExp_new ("^" ++ [backslash] ++ "/auth" ++ [backslash] ++ "/(login|logout)$")
      = Some re /\
    matchesPattern "/auth/login" (PRegExp re) = Some true /\
    matchesPattern "/auth/logout" (PRegExp re) = Some true /\
    matchesPattern "/auth/register" (PRegExp re) = Some false.
Proof. eexists. repeat split. Qed.

(** The earlier tests, on the earlier compiler. *)
Example test_legacy_wildcards :
  Legacy.matchesPattern "/api" (PString "/api/*") = Some true /\
  Legacy.matchesPattern "/api/users/123" (PString "/api/*") = Some false /\
  Legacy.matchesPattern "/" (PString "/api/*") = Some false /\
  Legacy.matchesPattern "/admin/settings" (PString "/admin/*") = Some true /\
  Legacy.matchesPattern "/" (PString "/**") = Some true /\
  Legacy.matchesPattern "/api/users/123/profile" (PString "/**") = Some true /\
  Legacy.matchesPattern "/api/users/123/profile/settings" (PString "/api/**")
    = Some true /\
  Legacy.matchesPattern "/admin/users" (PString "/api/**") = Some false.
Proof. repeat split. Qed.
